(** * ms-365-mcp-server: response optimizer and page aggregation

    A shallow embedding of [src/response-optimizer.ts] and of the
    [fetchAllPages] block of [src/graph-tools.ts], with the properties
    of the response transformation pipeline stated over it.

    - JavaScript strings are sequences of UTF-16 code units ([jstring]).
    - The regular expressions of the source are transcribed atom by atom
      and run by a small backtracking matcher ([match_atoms]) under the
      global replace of [String.prototype.replace] ([replace_all]).
    - JSON documents are values of [value]; objects are finite maps from
      property names to values.
    - A thrown [TypeError] or a rejected request is a [None] or a
      dedicated constructor, never a missing case. *)

From stdpp Require Import gmap strings list fin_maps pretty.
From Stdlib Require Import ZArith NArith Ascii.

Local Open Scope Z_scope.

(* ===================================================================== *)
(** ** JavaScript strings *)
(* ===================================================================== *)

(** A code unit.  Every [N] below 65536 is one; the definitions do not
    depend on the bound, so the results hold for every JavaScript string. *)
Definition code_unit := N.

Abbreviation jstring := (list code_unit).

(** The code units of an ASCII literal of the source. *)
Definition js (s : string) : jstring :=
  N_of_ascii <$> String.list_ascii_of_string s.

Definition LF : code_unit := 10%N.
Definition CR : code_unit := 13%N.
Definition LT : code_unit := 60%N.   (* < *)
Definition GT : code_unit := 62%N.   (* > *)
Definition AMP : code_unit := 38%N.  (* & *)

(** [s.length] *)
Definition js_length (s : jstring) : Z := Z.of_nat (length s).

(** [s.substring(0, n)] for an integer [n]: a negative [n] counts as 0 and
    an [n] beyond the end as the length. *)
Definition substring0 (s : jstring) (n : Z) : jstring := take (Z.to_nat n) s.

(** [s.includes(c)] for a one-character needle. *)
Definition includes (s : jstring) (c : code_unit) : bool :=
  existsb (N.eqb c) s.

(** [s.includes(sub)] in general: [sub] occurs somewhere in [s]. *)
Fixpoint starts_with (sub s : jstring) : bool :=
  match sub, s with
  | [], _ => true
  | a :: sub', b :: s' => N.eqb a b && starts_with sub' s'
  | _ :: _, [] => false
  end.

Fixpoint includes_str (s sub : jstring) : bool :=
  starts_with sub s
  || match s with
     | [] => false
     | _ :: t => includes_str t sub
     end.

(** ECMAScript [WhiteSpace] and [LineTerminator]: the class [\s] of a
    regular expression, and what [trim] removes. *)
Definition is_ws (c : code_unit) : bool :=
  ((9 <=? c) && (c <=? 13) || (c =? 32) || (c =? 160) || (c =? 5760)
   || (8192 <=? c) && (c <=? 8202) || (c =? 8232) || (c =? 8233)
   || (c =? 8239) || (c =? 8287) || (c =? 12288) || (c =? 65279))%N.

Fixpoint trimStart (s : jstring) : jstring :=
  match s with
  | [] => []
  | c :: t => if is_ws c then trimStart t else s
  end.

Fixpoint trimEnd (s : jstring) : jstring :=
  match s with
  | [] => []
  | c :: t =>
      match trimEnd t with
      | [] => if is_ws c then [] else [c]
      | t' => c :: t'
      end
  end.

(** [s.trim()] *)
Definition trim (s : jstring) : jstring := trimEnd (trimStart s).

(* ===================================================================== *)
(** ** Regular expressions and global replace *)
(* ===================================================================== *)

(** The patterns of the source are sequences of single characters or
    character classes, each taken once, optionally ([?]) or any number of
    times ([*], greedy). *)
Inductive atom : Type :=
| One (p : code_unit → bool)
| Maybe (p : code_unit → bool)
| Many (p : code_unit → bool).

(** [match_atoms r s]: the length of the match of [r] at the start of
    [s] that a backtracking matcher finds first (a greedy quantifier
    takes as much as it can and gives back one character at a time). *)
Fixpoint match_atoms (r : list atom) : jstring → option nat :=
  match r with
  | [] => λ _, Some 0%nat
  | One p :: r' => λ s,
      match s with
      | c :: t => if p c then S <$> match_atoms r' t else None
      | [] => None
      end
  | Maybe p :: r' => λ s,
      match s with
      | c :: t =>
          if p c then
            match match_atoms r' t with
            | Some k => Some (S k)
            | None => match_atoms r' s
            end
          else match_atoms r' s
      | [] => match_atoms r' []
      end
  | Many p :: r' =>
      fix many (s : jstring) : option nat :=
        match s with
        | c :: t =>
            if p c then
              match many t with
              | Some k => Some (S k)
              | None => match_atoms r' s
              end
            else match_atoms r' s
        | [] => match_atoms r' []
        end
  end.

(** Every pattern of the source begins with a literal character, so no
    match is empty: a pattern is its first character class and the atoms
    that follow. *)
Record regex : Type := Regex { re_head : code_unit → bool; re_tail : list atom }.

(** [s.replace(/r/g, rep)]: scan from the left; at a match emit [rep] and
    resume after the match, otherwise emit the character.  [skip] counts
    the characters of the current match still to pass over. *)
Fixpoint replace_from (r : regex) (rep : jstring) (skip : nat) (s : jstring)
  : jstring :=
  match s with
  | [] => []
  | c :: t =>
      match skip with
      | S k => replace_from r rep k t
      | O =>
          if re_head r c then
            match match_atoms (re_tail r) t with
            | Some k => rep ++ replace_from r rep k t
            | None => c :: replace_from r rep O t
            end
          else c :: replace_from r rep O t
      end
  end.

Definition replace_all (r : regex) (rep : jstring) (s : jstring) : jstring :=
  replace_from r rep O s.

(** Character classes. *)
Definition chr (a : code_unit) : code_unit → bool := N.eqb a.
Definition not_chr (a : code_unit) : code_unit → bool := λ c, negb (N.eqb a c).

(** An ASCII letter under the [i] flag: itself or its other case (a code
    unit above 127 never folds to an ASCII letter). *)
Definition chr_i (a : code_unit) : code_unit → bool :=
  λ c, (N.eqb a c
        || (97 <=? a) && (a <=? 122) && (c =? a - 32)
        || (65 <=? a) && (a <=? 90) && (c =? a + 32))%N.

Definition quote (c : code_unit) : bool := ((c =? 34) || (c =? 39))%N.

Definition lit (s : string) : list atom := (λ a, One (chr a)) <$> js s.
Definition lit_i (s : string) : list atom := (λ a, One (chr_i a)) <$> js s.

(** A pattern that is one literal string. *)
Definition re_lit (c : code_unit) (rest : string) : regex := Regex (chr c) (lit rest).

(* ===================================================================== *)
(** ** Content normalizer: [stripHtmlTags] and the media passes *)
(* ===================================================================== *)

(** [/<br\s*\/?>/gi] *)
Definition re_br : regex :=
  Regex (chr LT) (lit_i "br" ++ [Many is_ws; Maybe (chr 47%N); One (chr GT)]).
(** [/<\/p>/gi] *)
Definition re_close_p : regex :=
  Regex (chr LT) ([One (chr 47%N)] ++ lit_i "p" ++ [One (chr GT)]).
(** [/<\/div>/gi] *)
Definition re_close_div : regex :=
  Regex (chr LT) ([One (chr 47%N)] ++ lit_i "div" ++ [One (chr GT)]).
(** [/<[^>]*>/g] *)
Definition re_tag : regex :=
  Regex (chr LT) [Many (not_chr GT); One (chr GT)].
(** [/\r\n/g], [/\r/g] and [/\n\s*\n/g] *)
Definition re_crlf : regex := Regex (chr CR) [One (chr LF)].
Definition re_cr : regex := Regex (chr CR) [].
Definition re_blank : regex := Regex (chr LF) [Many is_ws; One (chr LF)].

(** The six entity replacements, in the order of the source. *)
Definition unescape_entities (s : jstring) : jstring :=
  let s := replace_all (re_lit AMP "nbsp;") (js " ") s in
  let s := replace_all (re_lit AMP "amp;") (js "&") s in
  let s := replace_all (re_lit AMP "lt;") (js "<") s in
  let s := replace_all (re_lit AMP "gt;") (js ">") s in
  let s := replace_all (re_lit AMP "quot;") [34%N] s in
  replace_all (re_lit AMP "#39;") (js "'") s.

(** The line-break tags, then every remaining tag. *)
Definition remove_tags (s : jstring) : jstring :=
  let s := replace_all re_br [LF] s in
  let s := replace_all re_close_p [LF] s in
  let s := replace_all re_close_div [LF] s in
  replace_all re_tag [] s.

(** The second statement of [stripHtmlTags]: line ends, blank lines, trim. *)
Definition clean_whitespace (s : jstring) : jstring :=
  let s := replace_all re_crlf [LF] s in
  let s := replace_all re_cr [LF] s in
  let s := replace_all re_blank [LF; LF] s in
  trim s.

Definition stripHtmlTags (html : jstring) : jstring :=
  match html with
  | [] => []                                   (* if (!html) return '' *)
  | _ => clean_whitespace (unescape_entities (remove_tags html))
  end.

(** [/<img[^>]*src\s*=\s*Q SCHEME:[^Q]*Q[^>]*>/gi], where [Q] stands for
    the class of the two quote characters (34 and 39). *)
Definition re_img (scheme : string) : regex :=
  Regex (chr LT)
    (lit_i "img" ++ [Many (not_chr GT)] ++ lit_i "src"
     ++ [Many is_ws; One (chr 61%N); Many is_ws; One quote]
     ++ lit_i scheme
     ++ [Many (λ c, negb (quote c)); One quote; Many (not_chr GT); One (chr GT)]).

Definition removeEmbeddedImages (html : jstring) : jstring :=
  replace_all (re_img "data:") (js "[IMAGE_REMOVED]") html.

Definition removeInlineAttachments (html : jstring) : jstring :=
  replace_all (re_img "cid:") (js "[ATTACHMENT_REMOVED]") html.

(* ===================================================================== *)
(** ** JSON values as JavaScript sees them *)
(* ===================================================================== *)

(** Property names are byte strings (the source only names ASCII
    properties); numbers are the integers, the only numbers the code
    computes with (lengths and the two size limits). *)
#[warnings="-register-all"]
Inductive value : Type :=
| VUndef
| VNull
| VBool (b : bool)
| VNum (n : Z)
| VStr (s : jstring)
| VArr (l : list value)
| VObj (m : gmap string value).

(** [if (v)] *)
Definition truthy (v : value) : bool :=
  match v with
  | VUndef | VNull => false
  | VBool b => b
  | VNum n => negb (n =? 0)
  | VStr s => match s with [] => false | _ => true end
  | VArr _ | VObj _ => true
  end.

(** [v.k] on a receiver known not to be [null] or [undefined], for the
    property names the source reads ([content], [value], [emailAddress],
    [name], ...): none of them is a built-in property of an array, a
    string, a number or a boolean, so only an object can have it. *)
Definition get (v : value) (k : string) : value :=
  match v with
  | VObj m => default VUndef (m !! k)
  | _ => VUndef
  end.

(** [v.k] in general: a [TypeError] on [null] and [undefined]. *)
Definition prop (v : value) (k : string) : option value :=
  match v with
  | VUndef | VNull => None
  | _ => Some (get v k)
  end.

(** [v?.k] *)
Definition opt_get (v : value) (k : string) : value :=
  match v with
  | VUndef | VNull => VUndef
  | _ => get v k
  end.

(** [{ ...v }] behind the guard [!v || typeof v !== 'object']: [None] when
    the guard returns early, else the own properties of the copy.  An
    array is an object too and spreads into its indices. *)
Definition spread (v : value) : option (gmap string value) :=
  match v with
  | VObj m => Some m
  | VArr l => Some (list_to_map (imap (λ i x, (pretty i, x)) l))
  | _ => None
  end.

(** [l.slice(0, n)] for an integer [n]: a negative [n] counts from the end. *)
Definition slice0 {A} (l : list A) (n : Z) : list A :=
  if n <? 0 then take (Z.to_nat (Z.of_nat (length l) + n)) l
  else take (Z.to_nat n) l.

(** A JSON object from its properties. *)
Definition obj (props : list (string * value)) : value := VObj (list_to_map props).

(* ===================================================================== *)
(** ** [response-optimizer.ts] *)
(* ===================================================================== *)

Record OptimizationConfig : Type := {
  maxHtmlContentSize : Z;
  stripHtmlToText : bool;
  removeEmbeddedImagesOpt : bool;      (* removeEmbeddedImages *)
  removeInlineAttachmentsOpt : bool;   (* removeInlineAttachments *)
  mailSelectFields : list string;
  maxItemsInCollection : Z
}.

Definition DEFAULT_LLM_OPTIMIZATION : OptimizationConfig := {|
  maxHtmlContentSize := 2000;
  stripHtmlToText := true;
  removeEmbeddedImagesOpt := true;
  removeInlineAttachmentsOpt := true;
  mailSelectFields :=
    ["id"; "subject"; "sender"; "from"; "toRecipients"; "ccRecipients";
     "receivedDateTime"; "sentDateTime"; "hasAttachments"; "importance";
     "isRead"; "bodyPreview"; "body"];
  maxItemsInCollection := 50
|}.

Definition TRUNCATED : jstring := js "...[TRUNCATED]".

(** The media passes selected by the configuration (lines 107-115). *)
Definition reduce_media (config : OptimizationConfig) (content : jstring) : jstring :=
  let content :=
    if removeEmbeddedImagesOpt config then removeEmbeddedImages content else content in
  if removeInlineAttachmentsOpt config then removeInlineAttachments content else content.

(** The test of lines 118-119 on the media-reduced content. *)
Definition wants_strip (config : OptimizationConfig) (contentType : value)
    (content : jstring) : bool :=
  (stripHtmlToText config || (js_length content >? maxHtmlContentSize config))
  && (match contentType with VStr t => bool_decide (t = js "html") | _ => false end
      || includes content LT).

(** Lines 125-128. *)
Definition truncate (config : OptimizationConfig) (content : jstring) : jstring :=
  if js_length content >? maxHtmlContentSize config
  then substring0 content (maxHtmlContentSize config) ++ TRUNCATED
  else content.

Definition optimizeMessageBody (body : value) (config : OptimizationConfig) : value :=
  match spread body with
  | None => body
  | Some optimizedBody =>
      match get body "content" with
      | VStr ((_ :: _) as content) =>
          let content := reduce_media config content in
          if wants_strip config (get body "contentType") content then
            VObj (<["content" := VStr (truncate config (stripHtmlTags content))]>
                    (<["contentType" := VStr (js "text")]> optimizedBody))
          else
            VObj (<["content" := VStr (truncate config content)]> optimizedBody)
      | _ => VObj optimizedBody
      end
  end.

(** The fields deleted by lines 150-158. *)
Definition removed_fields : list string :=
  ["conversationId"; "conversationIndex"; "internetMessageId"; "webLink";
   "changeKey"; "parentFolderId"; "inferenceClassification"; "flag";
   "categories"].

(** The arrow function of lines 163-166.  [recipient.emailAddress] throws
    on a [null] recipient; the [?.] only guards the wrapper. *)
Definition flatten_recipient (recipient : value) : option value :=
  emailAddress ← prop recipient "emailAddress";
  Some (VObj (<["name" := opt_get emailAddress "name"]>
               (<["address" := opt_get emailAddress "address"]> ∅))).

(** One round of the [forEach] of lines 161-168. *)
Definition flatten_recipients (field : string) (optimized : gmap string value)
  : option (gmap string value) :=
  match optimized !! field with
  | Some (VArr l) =>
      l' ← mapM flatten_recipient l;
      Some (<[field := VArr l']> optimized)
  | _ => Some optimized
  end.

(** One round of the [forEach] of lines 171-178. *)
Definition flatten_party (field : string) (optimized : gmap string value)
  : gmap string value :=
  let emailAddress := opt_get (default VUndef (optimized !! field)) "emailAddress" in
  if truthy emailAddress then
    <[field := VObj (<["name" := get emailAddress "name"]>
                      (<["address" := get emailAddress "address"]> ∅))]> optimized
  else optimized.

(** [None]: the [TypeError] of [flatten_recipient] escapes. *)
Definition optimizeMailMessage (message : value) (config : OptimizationConfig)
  : option value :=
  match spread message with
  | None => Some message
  | Some optimized =>
      let optimized :=
        if truthy (get message "body")
        then <["body" := optimizeMessageBody (get message "body") config]> optimized
        else optimized in
      let optimized := foldl (λ o f, delete f o) optimized removed_fields in
      optimized ← flatten_recipients "toRecipients" optimized;
      optimized ← flatten_recipients "ccRecipients" optimized;
      optimized ← flatten_recipients "bccRecipients" optimized;
      Some (VObj (flatten_party "from" (flatten_party "sender" optimized)))
  end.

(** The log line of the truncation is not modelled. *)
Definition optimizeMailCollection (response : value) (config : OptimizationConfig)
  : option value :=
  match spread response with
  | None => Some response
  | Some optimized =>
      match get response "value" with
      | VArr value =>
          let items :=
            if Z.of_nat (length value) >? maxItemsInCollection config
            then slice0 value (maxItemsInCollection config)
            else value in
          items' ← mapM (λ message, optimizeMailMessage message config) items;
          let optimized := <["value" := VArr items']> optimized in
          Some (VObj
            (if truthy (default VUndef (optimized !! "@odata.count"))
             then <["@odata.count" := VNum (Z.of_nat (length items'))]> optimized
             else optimized))
      | _ => Some (VObj optimized)
      end
  end.

(** The test of line 229 on the endpoint. *)
Definition is_mail_endpoint (endpoint : jstring) : bool :=
  includes_str endpoint (js "/messages") || includes_str endpoint (js "mail").

(** [None]: the [TypeError] of the entity reducer escapes. *)
Definition optimizeResponse (response : value) (endpoint : jstring)
    (config : OptimizationConfig) : option value :=
  match spread response with
  | None => Some response
  | Some _ =>
      if is_mail_endpoint endpoint then
        match get response "value" with
        | VArr _ => optimizeMailCollection response config
        | _ =>
            if truthy (get response "subject") || truthy (get response "body")
            then optimizeMailMessage response config
            else Some response
        end
      else Some response
  end.

(* ===================================================================== *)
(** ** [graph-tools.ts]: the [fetchAllPages] block (lines 284-337) *)
(* ===================================================================== *)

(** What one round of lines 295-307 can come to: building the URL from
    [nextLink], the request, and parsing the text of its reply. *)
Inductive reply : Type :=
| Rejected                    (* [new URL] or [graphRequest] throws *)
| NoContent                   (* the reply is missing or has no content item *)
| NotJson                     (* [JSON.parse] throws *)
| Json (nextJsonResponse : value).

(** How the block was left: the three exits of the [while] loop, or the
    [catch] clause. *)
Inductive exit : Type :=
| Exhausted                   (* [nextLink] is falsy *)
| EmptyReply                  (* the [else break] of line 319 *)
| PageLimit                   (* the [break] of line 316 *)
| Caught.                     (* line 334 *)

(** [allItems.length] *)
Definition items_length (allItems : value) : value :=
  match allItems with
  | VArr l => VNum (Z.of_nat (length l))
  | VStr s => VNum (js_length s)
  | _ => get allItems "length"
  end.

(** An assignment [o.k = v] as it shows in [JSON.stringify(o)]: a property
    whose value is [undefined] is left out of the text. *)
Definition assign (k : string) (v : value) (o : gmap string value)
  : gmap string value :=
  match v with
  | VUndef => delete k o
  | _ => <[k := v]> o
  end.

(** Lines 323-327 on the parsed first page. *)
Definition merge_into (combinedResponse : gmap string value) (allItems : value)
  : gmap string value :=
  let combinedResponse := assign "value" allItems combinedResponse in
  let combinedResponse :=
    if truthy (default VUndef (combinedResponse !! "@odata.count"))
    then assign "@odata.count" (items_length allItems) combinedResponse
    else combinedResponse in
  delete "@odata.nextLink" combinedResponse.

Section PageWalker.

(** The server and the transport, seen from the loop: a state that each
    request may change, and the outcome of fetching a continuation link. *)
Context {world : Type}.
Variable fetchNext : world → value → reply * world.

(** [String(arr)], reached only by [allItems.concat] when the [value] of
    the first page is a string. *)
Variable array_to_string : list value → jstring.

(** [allItems.concat(arr)]: a [TypeError] when [allItems] has no such
    method. *)
Definition concat (allItems : value) (arr : list value) : option value :=
  match allItems with
  | VArr l => Some (VArr (l ++ arr))
  | VStr s => Some (VStr (s ++ array_to_string arr))
  | _ => None
  end.

(** What the loop hands over: how it was left, with [allItems] and
    [pageCount], or [None] when something threw; the links requested and
    the state of the server in either case. *)
Record walked : Type := Walked {
  w_result : option (exit * value * nat);   (* [None]: thrown *)
  w_requests : list value;                  (* the links requested, in order *)
  w_world : world
}.

(** The [while (nextLink)] loop of lines 292-321.  [fuel] bounds the
    rounds; [walk_fuel] shows that [None] is never for lack of it. *)
Fixpoint walk (fuel : nat) (w : world) (allItems nextLink : value)
    (pageCount : nat) (requests : list value) : option walked :=
  if truthy nextLink then
    match fuel with
    | O => None
    | S fuel =>
        let '(r, w) := fetchNext w nextLink in
        let requests := requests ++ [nextLink] in
        match r with
        | Rejected | NotJson => Some (Walked None requests w)
        | NoContent => Some (Walked (Some (EmptyReply, allItems, pageCount)) requests w)
        | Json nextJsonResponse =>
            match prop nextJsonResponse "value" with
            | None => Some (Walked None requests w)
            | Some value =>
                let merged :=
                  match value with
                  | VArr l => concat allItems l
                  | _ => Some allItems
                  end in
                match merged with
                | None => Some (Walked None requests w)
                | Some allItems =>
                    let nextLink := get nextJsonResponse "@odata.nextLink" in
                    let pageCount := S pageCount in
                    if (100 <? pageCount)%nat
                    then Some (Walked (Some (PageLimit, allItems, pageCount)) requests w)
                    else walk fuel w allItems nextLink pageCount requests
                end
            end
        end
    end
  else Some (Walked (Some (Exhausted, allItems, pageCount)) requests w).

(** What the block leaves behind. *)
Record outcome : Type := Outcome {
  response : value;          (* the JSON in [response.content[0].text] *)
  left_by : exit;
  pages : nat;               (* [pageCount] when the loop was left; 0 if caught *)
  requests : list value;     (* the continuation links requested, in order *)
  world_after : world
}.

(** Lines 286-336 on the parsed text of the first page.  When anything
    throws, the [catch] clause only logs and the text of the response
    stays what it was. *)
Definition aggregateAllPages_fuel (fuel : nat) (w : world) (first : value)
  : option outcome :=
  match prop first "value" with
  | None => Some (Outcome first Caught 0 [] w)
  | Some value =>
      let allItems := if truthy value then value else VArr [] in
      let nextLink := get first "@odata.nextLink" in
      walked ← walk fuel w allItems nextLink 1 [];
      Some
        match w_result walked with
        | None => Outcome first Caught 0 (w_requests walked) (w_world walked)
        | Some (how, allItems, pageCount) =>
            match first with
            | VObj combinedResponse =>
                Outcome (VObj (merge_into combinedResponse allItems))
                  how pageCount (w_requests walked) (w_world walked)
            | VArr _ =>
                (* properties set on an array are not serialised *)
                Outcome first how pageCount (w_requests walked) (w_world walked)
            | _ =>
                (* assigning to a property of a primitive throws *)
                Outcome first Caught 0 (w_requests walked) (w_world walked)
            end
        end
  end.

Definition aggregateAllPages : world → value → option outcome :=
  aggregateAllPages_fuel 100.

(** A chain of pages: from the state [w] and the link [nextLink], the
    successive requests are answered by the pages of [chain] (each with the
    link it was requested by), each page giving the link of the next, up
    to the state [w'] and the link [last] of the last page. *)
Inductive follows : world → value → list (value * value) → world → value → Prop :=
| follows_end w nextLink : follows w nextLink [] w nextLink
| follows_page w nextLink page w1 chain w' last :
    truthy nextLink = true →
    fetchNext w nextLink = (Json page, w1) →
    follows w1 (get page "@odata.nextLink") chain w' last →
    follows w nextLink ((nextLink, page) :: chain) w' last.

End PageWalker.

(* ===================================================================== *)
(** ** [graph-tools.ts]: the optimization of a content item (lines 368-407) *)
(* ===================================================================== *)

(** Lines 377-384: the limit on collections is raised when all pages were
    asked for on an endpoint that line 169 took for a mail endpoint. *)
Definition optimizationConfig (fetchAllPages isMailEndpoint : bool)
    (effectiveOptimizationConfig : OptimizationConfig) : OptimizationConfig :=
  if fetchAllPages && isMailEndpoint then
    {| maxHtmlContentSize := maxHtmlContentSize effectiveOptimizationConfig;
       stripHtmlToText := stripHtmlToText effectiveOptimizationConfig;
       removeEmbeddedImagesOpt := removeEmbeddedImagesOpt effectiveOptimizationConfig;
       removeInlineAttachmentsOpt := removeInlineAttachmentsOpt effectiveOptimizationConfig;
       mailSelectFields := mailSelectFields effectiveOptimizationConfig;
       maxItemsInCollection := 10000 |}
  else effectiveOptimizationConfig.

(** Lines 372-399 on the parsed text of a content item: the value that is
    serialised into the item, which is [jsonResponse] itself when the
    dispatcher returns it, and also when the dispatcher throws (the [catch]
    of line 397 leaves the text as it is).  [path] is the request path
    with its query string, [isMailEndpoint] the flag of line 169. *)
Definition optimizedResponse (fetchAllPages isMailEndpoint : bool)
    (path : jstring) (effectiveOptimizationConfig : OptimizationConfig)
    (jsonResponse : value) : value :=
  default jsonResponse
    (optimizeResponse jsonResponse path
       (optimizationConfig fetchAllPages isMailEndpoint effectiveOptimizationConfig)).

(* ===================================================================== *)
(** ** Predicates of the specification *)
(* ===================================================================== *)

(** The items a fetched page brings: those of its [value] when it is an
    array, none otherwise. *)
Definition page_items (page : value) : list value :=
  match get page "value" with
  | VArr l => l
  | _ => []
  end.

(** The items of the pages of a chain, in order. *)
Definition chain_items (chain : list (value * value)) : list value :=
  mjoin (page_items <$> chain.*2).

Definition is_object (v : value) : Prop := ∃ m, v = VObj m.

(** No tag markup: no [<] is followed, anywhere later, by a [>]; so no
    pattern of the form [<...>] matches anywhere. *)
Fixpoint tagfree (s : jstring) : Prop :=
  match s with
  | [] => True
  | c :: t => (c = LT → GT ∉ t) ∧ tagfree t
  end.

(** Every blank-line match of [re_blank] in [s] is already the two line
    feeds it is replaced by. *)
Definition blank_collapsed (s : jstring) : Prop :=
  ∀ a t k, s = a ++ LF :: t →
    match_atoms (re_tail re_blank) t = Some k → k = 1%nat.

(** A message after lines 145-158 of the entity reducer: the body reduced
    and the fields of the denylist deleted. *)
Definition pruned (message : gmap string value) (config : OptimizationConfig)
  : gmap string value :=
  foldl (λ o f, delete f o)
    (if truthy (get (VObj message) "body")
     then <["body" := optimizeMessageBody (get (VObj message) "body") config]> message
     else message)
    removed_fields.

(** The least number of characters a match of a sequence of atoms takes. *)
Fixpoint min_length (r : list atom) : nat :=
  match r with
  | [] => 0
  | One _ :: r' => S (min_length r')
  | Maybe _ :: r' | Many _ :: r' => min_length r'
  end.

(** The invariant of a configuration in the data model of the
    specification: the two limits are positive and the field selection is
    not empty. *)
Definition valid_config (config : OptimizationConfig) : Prop :=
  0 < maxHtmlContentSize config ∧ 0 < maxItemsInCollection config
  ∧ mailSelectFields config ≠ [].

(** The content of a body before the size cap: the media passes and, when
    the test of lines 118-119 asks for it, the tag stripping. *)
Definition before_truncation (config : OptimizationConfig) (contentType : value)
    (content : jstring) : jstring :=
  let content := reduce_media config content in
  if wants_strip config contentType content then stripHtmlTags content else content.

(** The three recipient fields of lines 161-168. *)
Definition recipient_fields : list string :=
  ["toRecipients"; "ccRecipients"; "bccRecipients"].

(** The flat pair a recipient is rewritten to: name and address of its
    [emailAddress] wrapper, [undefined] where there is none. *)
Definition flat_pair (recipient : value) : value :=
  obj [("name", opt_get (get recipient "emailAddress") "name");
       ("address", opt_get (get recipient "emailAddress") "address")].

(** Neither [null] nor [undefined]. *)
Definition not_nullish (v : value) : Prop := v ≠ VNull ∧ v ≠ VUndef.

(* ===================================================================== *)
(** ** Example data *)
(* ===================================================================== *)

(** A [RichTextBody]. *)
Definition rich_text (contentType content : string) : value :=
  obj [("contentType", VStr (js contentType)); ("content", VStr (js content))].

(** A message with one recipient in its wrapper, as the server sends it. *)
Definition wrapped_message : value :=
  obj [("toRecipients",
        VArr [obj [("emailAddress",
                    obj [("name", VStr (js "John Doe"));
                         ("address", VStr (js "john@example.com"))])]])].

(** The same message with the recipient flattened. *)
Definition flattened_message : value :=
  obj [("toRecipients",
        VArr [obj [("name", VStr (js "John Doe"));
                   ("address", VStr (js "john@example.com"))]])].

(** A server that answers by a fixed table from links to replies, and
    rejects any other link. *)
Definition scripted (table : list (string * reply)) (w : unit) (nextLink : value)
  : reply * unit :=
  match nextLink with
  | VStr s =>
      match list_find (λ row, js row.1 = s) table with
      | Some (_, row) => (row.2, tt)
      | None => (Rejected, tt)
      end
  | _ => (Rejected, tt)
  end.

(** A server on which every page has one item and a link to a next page. *)
Definition endless (w : unit) (nextLink : value) : reply * unit :=
  (Json (obj [("value", VArr [VNum 7]); ("@odata.nextLink", VStr (js "next"))]), tt).

(** A stand-in for [String(arr)] where no string is concatenated. *)
Definition no_string (arr : list value) : jstring := [].

(** A page with the given items and, if any, the link to the next page. *)
Definition page (items : list value) (nextLink : option string) : value :=
  obj (("value", VArr items)
       :: match nextLink with
          | Some l => [("@odata.nextLink", VStr (js l))]
          | None => []
          end).

(* ===================================================================== *)
(** ** Tactics *)
(* ===================================================================== *)

(** A character is not in a literal string. *)
Ltac not_in_literal :=
  repeat (apply not_elem_of_cons; split; [discriminate|]); apply not_elem_of_nil.

(** The cases of a field name taken from a literal list. *)
Ltac field_cases H :=
  unfold recipient_fields in H;
  repeat match type of H with
         | _ ∈ _ :: _ => apply elem_of_cons in H as [H|H]
         | _ ∈ [] => by apply elem_of_nil in H
         end;
  try discriminate H; try subst; try done.

(* ===================================================================== *)
(** ** The matcher and the global replace *)
(* ===================================================================== *)

Section Replace.
Variable r : regex.
Variable rep : jstring.

Lemma replace_from_cons k c t :
  replace_from r rep k (c :: t) =
    match k with
    | S k => replace_from r rep k t
    | O =>
        if re_head r c then
          match match_atoms (re_tail r) t with
          | Some k => rep ++ replace_from r rep k t
          | None => c :: replace_from r rep O t
          end
        else c :: replace_from r rep O t
    end.
Proof. reflexivity. Qed.

Lemma replace_from_skip k s :
  replace_from r rep k s = replace_from r rep 0 (drop k s).
Proof.
  revert k; induction s as [|c t IH]; intros [|k]; simpl; auto.
Qed.

Lemma elem_of_replace_from x s k :
  x ∈ replace_from r rep k s → x ∈ s ∨ x ∈ rep.
Proof.
  revert k; induction s as [|c t IH]; intros k; simpl; [by left|].
  destruct k as [|k].
  - destruct (re_head r c); [destruct (match_atoms _ t) as [n|]|].
    + rewrite elem_of_app. intros [?|H]; [by right|].
      destruct (IH _ H); [left; by constructor | by right].
    + rewrite elem_of_cons. intros [->|H]; [left; by constructor|].
      destruct (IH _ H); [left; by constructor | by right].
    + rewrite elem_of_cons. intros [->|H]; [left; by constructor|].
      destruct (IH _ H); [left; by constructor | by right].
  - intros H. destruct (IH _ H); [left; by constructor | by right].
Qed.

(** A string in which every match is its own replacement is left as it
    is. *)
Lemma replace_from_fixed s k :
  (∀ a c t n, s = a ++ c :: t → re_head r c = true →
     match_atoms (re_tail r) t = Some n → rep = c :: take n t) →
  replace_from r rep k s = drop k s.
Proof.
  revert k; induction s as [|c t IH]; intros k Hfix; simpl.
  { by rewrite drop_nil. }
  assert (Ht : ∀ a c' t' n, t = a ++ c' :: t' → re_head r c' = true →
            match_atoms (re_tail r) t' = Some n → rep = c' :: take n t').
  { intros a c' t' n -> ??. by apply (Hfix (c :: a) c' t' n). }
  destruct k as [|k]; [|by apply IH].
  destruct (re_head r c) eqn:Hc; [|by rewrite IH].
  destruct (match_atoms _ t) as [n|] eqn:Hm; [|by rewrite IH].
  rewrite IH by done. rewrite (Hfix [] c t n eq_refl Hc Hm); simpl.
  by rewrite take_drop.
Qed.

Lemma replace_all_no_match s :
  (∀ a c t, s = a ++ c :: t → re_head r c = true →
     match_atoms (re_tail r) t = None) →
  replace_all r rep s = s.
Proof.
  intros H. unfold replace_all. rewrite replace_from_fixed; [done|].
  intros a c t n Hs Hc Hm. by rewrite (H a c t Hs Hc) in Hm.
Qed.


End Replace.

Lemma match_many_nil p r : match_atoms (Many p :: r) [] = match_atoms r [].
Proof. reflexivity. Qed.

Lemma match_many_cons p r c t :
  match_atoms (Many p :: r) (c :: t) =
    if p c then
      match match_atoms (Many p :: r) t with
      | Some k => Some (S k)
      | None => match_atoms r (c :: t)
      end
    else match_atoms r (c :: t).
Proof. reflexivity. Qed.

(** A match of a pattern that ends in a single character holds one. *)
Lemma match_atoms_last r q t k :
  match_atoms (r ++ [One q]) t = Some k → ∃ c, c ∈ t ∧ q c = true.
Proof.
  revert t k; induction r as [|a r IH]; intros t k.
  - destruct t as [|c t]; simpl; [done|]. destruct (q c) eqn:Hq; [|done].
    intros _. exists c. split; [by constructor | done].
  - assert (Hcons : ∀ c t k, match_atoms (r ++ [One q]) t = Some k →
              ∃ c', c' ∈ c :: t ∧ q c' = true).
    { intros c t' k' H. destruct (IH _ _ H) as (c' & ? & ?).
      exists c'. split; [by constructor | done]. }
    destruct a as [p|p|p].
    + destruct t as [|c t]; simpl; [done|]. destruct (p c); [|done].
      destruct (match_atoms _ t) as [n|] eqn:Hm; [|done].
      intros _. eauto.
    + destruct t as [|c t]; simpl; [apply IH|].
      destruct (p c); [|apply IH].
      destruct (match_atoms _ t) as [n|] eqn:Hm; [intros _; eauto | apply IH].
    + change ((Many p :: r) ++ [One q]) with (Many p :: (r ++ [One q])).
      revert k. induction t as [|c t IHt]; intros k; [apply IH|].
      rewrite match_many_cons. destruct (p c); [|apply IH].
      destruct (match_atoms (Many p :: _) t) as [n|]; [|apply IH].
      intros _. destruct (IHt _ eq_refl) as (c' & ? & ?).
      exists c'. split; [by constructor | done].
Qed.

(* ===================================================================== *)
(** ** Tag markup *)
(* ===================================================================== *)

Lemma chr_true a c : chr a c = true ↔ c = a.
Proof. unfold chr. rewrite N.eqb_eq. split; congruence. Qed.

Lemma chr_false a c : chr a c = false ↔ c ≠ a.
Proof. unfold chr. rewrite N.eqb_neq. split; congruence. Qed.

Lemma tagfree_app a b : tagfree (a ++ b) → tagfree a ∧ tagfree b.
Proof.
  induction a as [|c a IH]; simpl; [done|].
  intros [Hc Ht]. destruct (IH Ht) as [Ha Hb]. repeat split; [|done..].
  intros Hlt Hin. apply (Hc Hlt). rewrite elem_of_app; auto.
Qed.

Lemma tagfree_after a t : tagfree (a ++ LT :: t) → GT ∉ t.
Proof. intros H. apply tagfree_app in H as [_ [H _]]. by apply H. Qed.

(** Without markup, a pattern from [<] to [>] matches nowhere. *)
Lemma replace_all_tagfree r q rep s :
  (∀ c, re_head r c = true → c = LT) →
  re_tail r = q ++ [One (chr GT)] →
  tagfree s → replace_all r rep s = s.
Proof.
  intros Hhead Htail Hs. apply replace_all_no_match.
  intros a c t -> Hc. apply Hhead in Hc as ->.
  destruct (match_atoms (re_tail r) t) as [k|] eqn:Hm; [|done].
  rewrite Htail in Hm. apply match_atoms_last in Hm as (c & Hin & Hgt).
  apply chr_true in Hgt as ->. by apply tagfree_after in Hs.
Qed.






(* ===================================================================== *)
(** ** Trimming *)
(* ===================================================================== *)

Lemma trimStart_suffix s : ∃ a, s = a ++ trimStart s.
Proof.
  induction s as [|c t [a IH]]; simpl; [by exists []|].
  destruct (is_ws c); [|by exists []].
  exists (c :: a). simpl. by f_equal.
Qed.

Lemma trimEnd_prefix s : ∃ w, s = trimEnd s ++ w.
Proof.
  induction s as [|c t [w IH]]; simpl; [by exists []|].
  destruct (trimEnd t) as [|c' t'] eqn:Ht.
  - destruct (is_ws c); [by exists (c :: t) | exists w; simpl in *; congruence].
  - exists w. simpl in *. congruence.
Qed.

Lemma trimEnd_idemp s : trimEnd (trimEnd s) = trimEnd s.
Proof.
  induction s as [|c t IH]; simpl; [done|].
  destruct (trimEnd t) as [|c' t'] eqn:Ht.
  - destruct (is_ws c) eqn:Hc; simpl; [done | by rewrite Hc].
  - simpl in *. destruct (trimEnd t') eqn:Ht'.
    + destruct (is_ws c'); [done|]. by injection IH as <-.
    + by rewrite IH.
Qed.

Lemma trimStart_trimEnd_trimStart s :
  trimStart (trimEnd (trimStart s)) = trimEnd (trimStart s).
Proof.
  induction s as [|c t IH]; simpl; [done|].
  destruct (is_ws c) eqn:Hc; [done|]. simpl.
  destruct (trimEnd t); rewrite ?Hc; simpl; by rewrite Hc.
Qed.

Lemma trim_idemp s : trim (trim s) = trim s.
Proof.
  unfold trim. by rewrite trimStart_trimEnd_trimStart, trimEnd_idemp.
Qed.

Lemma trim_infix s : ∃ a w, s = a ++ trim s ++ w.
Proof.
  unfold trim. destruct (trimStart_suffix s) as [a Ha].
  destruct (trimEnd_prefix (trimStart s)) as [w Hw].
  exists a, w. by rewrite <- Hw.
Qed.

Lemma elem_of_trim x s : x ∈ trim s → x ∈ s.
Proof.
  destruct (trim_infix s) as (a & w & Hs). intros Hx. rewrite Hs.
  rewrite !elem_of_app; auto.
Qed.


(* ===================================================================== *)
(** ** Blank lines: [/\n\s*\n/g] *)
(* ===================================================================== *)

(** After the first line feed the match runs, through white space, to the
    last line feed it can reach. *)
Lemma blank_tail_cons c t :
  match_atoms (re_tail re_blank) (c :: t) =
    if is_ws c then
      match match_atoms (re_tail re_blank) t with
      | Some k => Some (S k)
      | None => if chr LF c then Some 1%nat else None
      end
    else None.
Proof.
  unfold re_blank; simpl re_tail. rewrite match_many_cons.
  change (match_atoms [One (chr LF)] (c :: t))
    with (if chr LF c then Some 1%nat else None).
  destruct (is_ws c) eqn:Hws; [done|].
  destruct (chr LF c) eqn:Hc; [|done].
  apply chr_true in Hc as ->. done.
Qed.

Lemma blank_tail_pos t k : match_atoms (re_tail re_blank) t = Some k → (1 ≤ k)%nat.
Proof.
  destruct t as [|c t]; [done|]. rewrite blank_tail_cons.
  destruct (is_ws c); [|done].
  destruct (match_atoms _ t); [|destruct (chr LF c)]; intros [= <-]; lia.
Qed.


(** The match is greedy: nothing is left to match right after it. *)
Lemma blank_tail_greedy t k :
  match_atoms (re_tail re_blank) t = Some k →
  match_atoms (re_tail re_blank) (drop k t) = None.
Proof.
  revert k; induction t as [|c t IH]; intros k; [done|].
  rewrite blank_tail_cons. destruct (is_ws c); [|done].
  destruct (match_atoms _ t) as [n|] eqn:Hm.
  - intros [= <-]. by apply IH.
  - destruct (chr LF c); [|done]. by intros [= <-].
Qed.

(** A longer string can only lengthen the match. *)
Lemma blank_tail_app t w k :
  match_atoms (re_tail re_blank) t = Some k →
  ∃ k', match_atoms (re_tail re_blank) (t ++ w) = Some k' ∧ (k ≤ k')%nat.
Proof.
  revert k; induction t as [|c t IH]; intros k; [done|].
  rewrite <- app_comm_cons, !blank_tail_cons. destruct (is_ws c); [|done].
  destruct (match_atoms _ t) as [n|] eqn:Hm.
  - intros [= <-]. destruct (IH _ eq_refl) as (k' & -> & ?).
    exists (S k'). split; [done | lia].
  - destruct (chr LF c); [|done]. intros [= <-].
    destruct (match_atoms _ (t ++ w)) as [k'|] eqn:Hm'.
    + exists (S k'). split; [done | lia].
    + by exists 1%nat.
Qed.

(** Where nothing matched before the replacement, nothing matches after. *)
Lemma blank_tail_replace_None u :
  match_atoms (re_tail re_blank) u = None →
  match_atoms (re_tail re_blank) (replace_all re_blank [LF; LF] u) = None.
Proof.
  unfold replace_all. induction u as [|c t IH]; [done|].
  rewrite blank_tail_cons, replace_from_cons.
  change (re_head re_blank c) with (chr LF c).
  destruct (is_ws c) eqn:Hws.
  - destruct (match_atoms _ t) as [n|] eqn:Hm; [done|].
    destruct (chr LF c) eqn:Hc; [done|]. intros _.
    by rewrite blank_tail_cons, Hws, IH, Hc.
  - intros _. destruct (chr LF c) eqn:Hc.
    { apply chr_true in Hc as ->. done. }
    by rewrite blank_tail_cons, Hws.
Qed.

Lemma blank_collapsed_cons c y :
  blank_collapsed y →
  (c = LF → ∀ k, match_atoms (re_tail re_blank) y = Some k → k = 1%nat) →
  blank_collapsed (c :: y).
Proof.
  intros Hy Hc a t k Heq Hm. destruct a as [|x a]; simpl in Heq.
  - injection Heq as -> ->. by apply (Hc eq_refl).
  - injection Heq as -> ->. by apply (Hy a t k).
Qed.

Lemma blank_collapsed_infix a s w :
  blank_collapsed (a ++ s ++ w) → blank_collapsed s.
Proof.
  intros H a' t k -> Hm.
  destruct (blank_tail_app t w k Hm) as (k' & Hm' & Hle).
  assert (k' = 1%nat).
  { apply (H (a ++ a') (t ++ w) k'); [|done]. by rewrite <- !app_assoc. }
  apply blank_tail_pos in Hm. lia.
Qed.

(** After the replacement every blank-line match is two line feeds. *)
Lemma blank_collapsed_replace_from s k :
  blank_collapsed (replace_from re_blank [LF; LF] k s).
Proof.
  revert k; induction s as [|c t IH]; intros k.
  { intros [|??] ???; done. }
  rewrite replace_from_cons. destruct k as [|k]; [|apply IH].
  change (re_head re_blank c) with (chr LF c).
  assert (Hnone : match_atoms (re_tail re_blank) t = None →
            blank_collapsed (c :: replace_from re_blank [LF; LF] 0 t)).
  { intros Hm. apply blank_collapsed_cons; [apply IH|]. intros _ k.
    change (replace_from re_blank [LF; LF] 0 t)
      with (replace_all re_blank [LF; LF] t).
    by rewrite blank_tail_replace_None. }
  destruct (chr LF c) eqn:Hc.
  - destruct (match_atoms (re_tail re_blank) t) as [n|] eqn:Hm; [|by apply Hnone].
    assert (Hrest : match_atoms (re_tail re_blank)
                      (replace_from re_blank [LF; LF] n t) = None).
    { rewrite replace_from_skip. apply blank_tail_replace_None.
      by apply blank_tail_greedy. }
    simpl. apply blank_collapsed_cons.
    + apply blank_collapsed_cons; [apply IH|]. intros _ k. by rewrite Hrest.
    + intros _ k. rewrite blank_tail_cons, Hrest. simpl. by intros [= <-].
  - apply blank_collapsed_cons; [apply IH|]. intros ->. done.
Qed.


(** [re_cr] replaces every carriage return. *)
Lemma replace_from_cr_none s k : CR ∉ replace_from re_cr [LF] k s.
Proof.
  revert k; induction s as [|c t IH]; intros k; [apply not_elem_of_nil|].
  rewrite replace_from_cons. destruct k as [|k]; [|apply IH].
  change (re_head re_cr c) with (chr CR c). simpl re_tail.
  destruct (chr CR c) eqn:Hc; simpl.
  - rewrite not_elem_of_cons. split; [done | apply IH].
  - apply chr_false in Hc. rewrite not_elem_of_cons. split; [done | apply IH].
Qed.

(* ===================================================================== *)
(** ** [stripHtmlTags] *)
(* ===================================================================== *)

Lemma not_elem_of_replace_all x r rep s :
  x ∉ s → x ∉ rep → x ∉ replace_all r rep s.
Proof. intros Hs Hrep Hx. by apply elem_of_replace_from in Hx as [?|?]. Qed.

Lemma not_elem_of_trim x s : x ∉ s → x ∉ trim s.
Proof. intros Hs Hx. by apply elem_of_trim in Hx. Qed.






Lemma clean_whitespace_no_cr s : CR ∉ clean_whitespace s.
Proof.
  unfold clean_whitespace. apply not_elem_of_trim.
  apply not_elem_of_replace_all.
  - apply replace_from_cr_none.
  - not_in_literal.
Qed.

Lemma blank_collapsed_clean_whitespace s : blank_collapsed (clean_whitespace s).
Proof.
  unfold clean_whitespace.
  destruct (trim_infix (replace_all re_blank [LF; LF]
              (replace_all re_cr [LF] (replace_all re_crlf [LF] s))))
    as (a & w & Heq).
  apply (blank_collapsed_infix a _ w). rewrite <- Heq.
  apply blank_collapsed_replace_from.
Qed.






(* ===================================================================== *)
(** ** [optimizeMessageBody] *)
(* ===================================================================== *)


Lemma TRUNCATED_length : js_length TRUNCATED = 14.
Proof. reflexivity. Qed.

Lemma truncate_length config s :
  0 ≤ maxHtmlContentSize config →
  js_length (truncate config s) ≤ maxHtmlContentSize config + js_length TRUNCATED.
Proof.
  intros Hmax. unfold truncate, js_length, substring0.
  destruct (Z.gtb_spec (Z.of_nat (length s)) (maxHtmlContentSize config)).
  - rewrite length_app, length_take. lia.
  - lia.
Qed.

(** The body reducer on a body with a non-empty string content. *)
Lemma optimizeMessageBody_content m config c t :
  m !! "content" = Some (VStr (c :: t)) →
  optimizeMessageBody (VObj m) config =
    VObj (<["content" := VStr (truncate config
              (before_truncation config (get (VObj m) "contentType") (c :: t)))]>
           (if wants_strip config (get (VObj m) "contentType")
                 (reduce_media config (c :: t))
            then <["contentType" := VStr (js "text")]> m else m)).
Proof.
  intros Hc. unfold optimizeMessageBody, before_truncation.
  simpl spread. cbv iota beta.
  replace (get (VObj m) "content") with (VStr (c :: t))
    by (simpl; by rewrite Hc).
  by destruct (wants_strip _ _ _).
Qed.

Lemma optimizeMessageBody_empty m config :
  m !! "content" = Some (VStr []) → optimizeMessageBody (VObj m) config = VObj m.
Proof.
  intros Hc. unfold optimizeMessageBody. simpl spread. cbv iota beta.
  replace (get (VObj m) "content") with (VStr []) by (simpl; by rewrite Hc).
  done.
Qed.

Lemma get_content_object body content :
  get body "content" = VStr content →
  ∃ m, body = VObj m ∧ m !! "content" = Some (VStr content).
Proof.
  destruct body as [| | | | | |m]; try done. simpl.
  destruct (m !! "content") as [v|] eqn:Hm; [|done]. simpl. intros ->. eauto.
Qed.

(** C5: the content of a reduced body is at most [maxHtmlContentSize] plus
    the 14 characters of the suffix long; when the content before the cap
    is longer than the limit, it is cut to exactly the limit and the suffix
    is appended. *)
Theorem optimizeMessageBody_content_bound (body : value)
    (config : OptimizationConfig) (content : jstring) :
  valid_config config →
  get body "content" = VStr content →
  ∃ content',
    get (optimizeMessageBody body config) "content" = VStr content'
    ∧ js_length content' ≤ maxHtmlContentSize config + js_length TRUNCATED
    ∧ js_length TRUNCATED = 14
    ∧ (content ≠ [] →
       let reduced := before_truncation config (get body "contentType") content in
       if js_length reduced >? maxHtmlContentSize config
       then content' = substring0 reduced (maxHtmlContentSize config) ++ TRUNCATED
            ∧ js_length (substring0 reduced (maxHtmlContentSize config))
              = maxHtmlContentSize config
       else content' = reduced).
Proof.
  intros (Hmax & _ & _) (m & -> & Hm)%get_content_object.
  destruct content as [|c t].
  - exists []. rewrite optimizeMessageBody_empty by done.
    repeat split; [simpl; by rewrite Hm | | done].
    rewrite TRUNCATED_length. unfold js_length; simpl. lia.
  - eexists. rewrite (optimizeMessageBody_content m config c t) by done.
    split; [by simpl; rewrite lookup_insert_eq|].
    split; [apply truncate_length; lia|]. split; [done|]. intros _. simpl.
    unfold truncate.
    destruct (Z.gtb_spec (js_length (before_truncation config
                (default VUndef (m !! "contentType")) (c :: t)))
              (maxHtmlContentSize config)) as [Hlt|Hle]; [|done].
    split; [done|]. unfold js_length, substring0 in *. rewrite length_take. lia.
Qed.

Lemma optimizeMessageBody_content_bound_witness :
  ∃ content',
    get (optimizeMessageBody
           (VObj (<["contentType" := VStr (js "html")]>
                   (<["content" := VStr (js "<p>Hello <b>world</b>!</p>")]> ∅)))
           DEFAULT_LLM_OPTIMIZATION) "content" = VStr content'
    ∧ js_length content' ≤ 2000 + 14.
Proof.
  destruct (optimizeMessageBody_content_bound
              (VObj (<["contentType" := VStr (js "html")]>
                      (<["content" := VStr (js "<p>Hello <b>world</b>!</p>")]> ∅)))
              DEFAULT_LLM_OPTIMIZATION (js "<p>Hello <b>world</b>!</p>"))
    as (content' & H1 & H2 & _).
  - repeat split; done.
  - reflexivity.
  - exists content'. split; [exact H1 | exact H2].
Defined.










(* ===================================================================== *)
(** ** [optimizeMailCollection] *)
(* ===================================================================== *)

(** The items the collection reducer retains (lines 193-197). *)
Lemma optimizeMailCollection_items m items config :
  m !! "value" = Some (VArr items) →
  optimizeMailCollection (VObj m) config =
    items' ← mapM (λ message, optimizeMailMessage message config)
                (if Z.of_nat (length items) >? maxItemsInCollection config
                 then slice0 items (maxItemsInCollection config) else items);
    Some (VObj
      (if truthy (default VUndef (m !! "@odata.count"))
       then <["@odata.count" := VNum (Z.of_nat (length items'))]>
              (<["value" := VArr items']> m)
       else <["value" := VArr items']> m)).
Proof.
  intros Hm. unfold optimizeMailCollection. simpl spread. cbv iota beta.
  replace (get (VObj m) "value") with (VArr items) by (simpl; by rewrite Hm).
  cbv iota beta zeta.
  destruct (mapM _ _) as [items'|]; [|done]. simpl.
  by rewrite lookup_insert_ne.
Qed.

(** Under a limit that is not negative they are the first
    [maxItemsInCollection] items. *)
Lemma retained_take (items : list value) config :
  0 ≤ maxItemsInCollection config →
  (if Z.of_nat (length items) >? maxItemsInCollection config
   then slice0 items (maxItemsInCollection config) else items)
  = take (Z.to_nat (maxItemsInCollection config)) items.
Proof.
  intros Hmax. unfold slice0.
  destruct (Z.gtb_spec (Z.of_nat (length items)) (maxItemsInCollection config)).
  - by destruct (Z.ltb_spec (maxItemsInCollection config) 0); [lia|].
  - symmetry. apply take_ge. lia.
Qed.






(* ===================================================================== *)
(** ** [optimizeMailMessage]: the recipient fields *)
(* ===================================================================== *)

Lemma flatten_recipient_Some recipient :
  not_nullish recipient → flatten_recipient recipient = Some (flat_pair recipient).
Proof. intros [? ?]. by destruct recipient. Qed.

Lemma mapM_flatten_recipient l :
  Forall not_nullish l → mapM flatten_recipient l = Some (flat_pair <$> l).
Proof.
  intros Hl. apply mapM_Some. induction Hl as [|x l Hx _ IH]; simpl.
  - constructor.
  - constructor; [by apply flatten_recipient_Some | done].
Qed.

Lemma flatten_recipients_spec field (o : gmap string value) :
  (∀ l, o !! field = Some (VArr l) → Forall not_nullish l) →
  ∃ o', flatten_recipients field o = Some o'
        ∧ (∀ g, g ≠ field → o' !! g = o !! g)
        ∧ (∀ l, o !! field = Some (VArr l) →
             o' !! field = Some (VArr (flat_pair <$> l))).
Proof.
  intros Hl. unfold flatten_recipients.
  destruct (o !! field) as [v|] eqn:Ho; [|by exists o].
  destruct v as [| | | | |l|]; try (by exists o).
  rewrite mapM_flatten_recipient by by apply Hl. simpl. eexists. split; [done|].
  split.
  - intros g Hg. by rewrite lookup_insert_ne.
  - intros l' [= <-]. by rewrite lookup_insert_eq.
Qed.

Lemma lookup_foldl_delete (fs : list string) (m : gmap string value) g :
  g ∉ fs → foldl (λ o f, delete f o) m fs !! g = m !! g.
Proof.
  revert m; induction fs as [|f fs IH]; intros m; simpl; [done|].
  intros [? ?]%not_elem_of_cons. by rewrite IH, lookup_delete_ne.
Qed.

Lemma flatten_party_lookup_ne field (o : gmap string value) g :
  g ≠ field → flatten_party field o !! g = o !! g.
Proof.
  intros Hg. unfold flatten_party. destruct (truthy _); [|done].
  by rewrite lookup_insert_ne.
Qed.

(** C10 as stated: every entry of a recipient list is rewritten.  On an
    entry that is [null] the reducer throws instead: [recipient.emailAddress]
    is read without a guard. *)
Lemma optimizeMailMessage_null_recipient :
  optimizeMailMessage (obj [("toRecipients", VArr [VNull])])
    DEFAULT_LLM_OPTIMIZATION = None.
Proof. by vm_compute. Qed.

(** C10, amended: on an entity whose recipient lists hold no [null], the
    entity reducer returns, and each recipient field that is a list comes
    out as the list of the flat pairs of its entries, whatever the entries
    are; an entry with no [emailAddress] wrapper (a pair that is already
    flat, say) comes out as a pair of two [undefined]; so reducing a
    reduced message loses its recipients: the reducer is not idempotent. *)
Theorem optimizeMailMessage_recipients (m : gmap string value)
    (config : OptimizationConfig) :
  (∀ f l, f ∈ recipient_fields → m !! f = Some (VArr l) → Forall not_nullish l) →
  (∃ r, optimizeMailMessage (VObj m) config = Some (VObj r)
        ∧ ∀ f l, f ∈ recipient_fields → m !! f = Some (VArr l) →
            r !! f = Some (VArr (flat_pair <$> l)))
  ∧ (∀ e, get e "emailAddress" = VUndef →
       flat_pair e = obj [("name", VUndef); ("address", VUndef)])
  ∧ optimizeMailMessage wrapped_message config = Some flattened_message
  ∧ optimizeMailMessage flattened_message config
    = Some (obj [("toRecipients", VArr [obj [("name", VUndef); ("address", VUndef)]])])
  ∧ optimizeMailMessage flattened_message config ≠ Some flattened_message.
Proof.
  intros Hm. split; [|split; [|by vm_compute]].
  2:{ intros e He. unfold flat_pair. by rewrite He. }
  unfold optimizeMailMessage. simpl spread. cbv iota beta zeta.
  set (m1 := if truthy (get (VObj m) "body") then _ else m).
  set (m2 := foldl _ m1 removed_fields).
  assert (H2 : ∀ f, f ∈ recipient_fields → m2 !! f = m !! f).
  { intros f Hf. unfold m2. rewrite lookup_foldl_delete.
    - unfold m1. destruct (truthy _); [|done]. apply lookup_insert_ne.
      intros <-. field_cases Hf.
    - unfold removed_fields. field_cases Hf; not_in_literal. }
  assert (Hto : "toRecipients" ∈ recipient_fields) by repeat constructor.
  assert (Hcc : "ccRecipients" ∈ recipient_fields) by repeat constructor.
  assert (Hbcc : "bccRecipients" ∈ recipient_fields) by repeat constructor.
  destruct (flatten_recipients_spec "toRecipients" m2) as (m3 & E3 & Hne3 & Heq3).
  { intros l. rewrite H2 by done. by apply Hm. }
  destruct (flatten_recipients_spec "ccRecipients" m3) as (m4 & E4 & Hne4 & Heq4).
  { intros l. rewrite Hne3, H2 by done. by apply Hm. }
  destruct (flatten_recipients_spec "bccRecipients" m4) as (m5 & E5 & Hne5 & Heq5).
  { intros l. rewrite Hne4, Hne3, H2 by done. by apply Hm. }
  rewrite E3. simpl. rewrite E4. simpl. rewrite E5. simpl.
  eexists. split; [done|]. intros f l Hf Hl.
  rewrite !flatten_party_lookup_ne by (intros ->; field_cases Hf).
  field_cases Hf.
  - rewrite Hne5, Hne4 by done. apply Heq3. by rewrite H2.
  - rewrite Hne5 by done. apply Heq4. by rewrite Hne3, H2.
  - apply Heq5. by rewrite Hne4, Hne3, H2.
Qed.

Lemma optimizeMailMessage_recipients_witness :
  ∃ r, optimizeMailMessage wrapped_message DEFAULT_LLM_OPTIMIZATION = Some (VObj r).
Proof.
  destruct (optimizeMailMessage_recipients
              (list_to_map
                 [("toRecipients",
                   VArr [obj [("emailAddress",
                               obj [("name", VStr (js "John Doe"));
                                    ("address", VStr (js "john@example.com"))])]])])
              DEFAULT_LLM_OPTIMIZATION) as [(r & H & _) _].
  - intros f l Hf. field_cases Hf.
    intros [= <-]. repeat constructor; discriminate.
  - exists r. exact H.
Defined.

(* ===================================================================== *)
(** ** The page walk *)
(* ===================================================================== *)

Lemma merge_into_value m0 l :
  merge_into m0 (VArr l) !! "value" = Some (VArr l).
Proof.
  unfold merge_into, assign; simpl. rewrite lookup_delete_ne by done.
  destruct (truthy _); by rewrite ?lookup_insert_ne, lookup_insert_eq by done.
Qed.

Lemma merge_into_nextLink m0 allItems :
  merge_into m0 allItems !! "@odata.nextLink" = None.
Proof. unfold merge_into. apply lookup_delete_eq. Qed.

Lemma merge_into_count m0 l count :
  m0 !! "@odata.count" = Some count →
  merge_into m0 (VArr l) !! "@odata.count"
  = Some (if truthy count then VNum (Z.of_nat (length l)) else count).
Proof.
  intros Hc. unfold merge_into, assign; simpl. rewrite lookup_delete_ne by done.
  rewrite lookup_insert_ne, Hc by done. simpl.
  destruct (truthy count); by rewrite ?lookup_insert_eq, ?lookup_insert_ne, ?Hc by done.
Qed.

Lemma merge_into_other m0 l k :
  k ≠ "value" → k ≠ "@odata.count" → k ≠ "@odata.nextLink" →
  merge_into m0 (VArr l) !! k = m0 !! k.
Proof.
  intros. unfold merge_into, assign; simpl. rewrite lookup_delete_ne by done.
  destruct (truthy _); by rewrite !lookup_insert_ne by done.
Qed.

Section PageWalkerFacts.

Context {world : Type}.
Variable fetchNext : world → value → reply * world.
Variable array_to_string : list value → jstring.

(** The loop never runs out of fuel: from [pageCount] on, at most
    [101 - pageCount] rounds are made. *)
Lemma walk_fuel fuel w allItems nextLink pageCount requests :
  (pageCount ≤ 100)%nat → (101 ≤ fuel + pageCount)%nat →
  is_Some (walk fetchNext array_to_string fuel w allItems nextLink pageCount requests).
Proof.
  revert w allItems nextLink pageCount requests.
  induction fuel as [|fuel IH]; intros w allItems nextLink pageCount requests ??;
    [lia|].
  simpl. destruct (truthy nextLink); [|by eexists].
  destruct (fetchNext w nextLink) as [[| | |next] w1]; try by eexists.
  destruct (prop next "value") as [v|]; [|by eexists].
  destruct (match v with VArr l => _ | _ => _ end); [|by eexists].
  destruct (Nat.ltb_spec 100 (S pageCount)); [by eexists|].
  apply IH; lia.
Qed.

Lemma aggregateAllPages_total w first :
  is_Some (aggregateAllPages fetchNext array_to_string w first).
Proof.
  unfold aggregateAllPages, aggregateAllPages_fuel.
  destruct (prop first "value"); [|by eexists].
  edestruct walk_fuel as [x ->]; [| |by eexists]; lia.
Qed.

(** One round on a page that is an object. *)
Lemma walk_page fuel w nextLink m w1 acc pageCount requests :
  truthy nextLink = true →
  fetchNext w nextLink = (Json (VObj m), w1) →
  walk fetchNext array_to_string (S fuel) w (VArr acc) nextLink pageCount requests
  = if (100 <? S pageCount)%nat
    then Some (Walked (Some (PageLimit, VArr (acc ++ page_items (VObj m)),
                             S pageCount))
                 (requests ++ [nextLink]) w1)
    else walk fetchNext array_to_string fuel w1
           (VArr (acc ++ page_items (VObj m)))
           (get (VObj m) "@odata.nextLink") (S pageCount) (requests ++ [nextLink]).
Proof.
  intros Ht Hf. simpl. rewrite Ht, Hf. unfold page_items. simpl.
  destruct (m !! "value") as [[| | | | |l|]|]; simpl; by rewrite ?app_nil_r.
Qed.

(** The loop along a chain of pages that stays below the page limit. *)
Lemma walk_follows chain : ∀ fuel w nextLink acc pageCount requests w' last,
  follows fetchNext w nextLink chain w' last →
  Forall (λ lp, is_object lp.2) chain →
  (pageCount + length chain ≤ 100)%nat →
  walk fetchNext array_to_string (length chain + fuel) w (VArr acc) nextLink
    pageCount requests
  = walk fetchNext array_to_string fuel w' (VArr (acc ++ chain_items chain)) last
      (pageCount + length chain) (requests ++ chain.*1).
Proof.
  induction chain as [|[link page] chain IH];
    intros fuel w nextLink acc pageCount requests w' last Hch Hobj Hlen.
  - inversion Hch; subst. unfold chain_items. simpl.
    by rewrite !app_nil_r, Nat.add_0_r.
  - inversion Hch as [|??????? Ht Hf Hrest]; subst.
    apply Forall_cons in Hobj as [[m Hp] Hobj]. simpl in Hp, Hlen. subst page.
    change (length ((link, VObj m) :: chain) + fuel)%nat
      with (S (length chain + fuel)).
    rewrite (walk_page _ _ _ m w1) by done.
    destruct (Nat.ltb_spec 100 (S pageCount)); [lia|].
    rewrite (IH _ _ _ _ _ _ _ _ Hrest Hobj) by lia.
    unfold chain_items. simpl. rewrite <- !app_assoc. simpl.
    by replace (pageCount + S (length chain))%nat
      with (S (pageCount + length chain)) by lia.
Qed.

(** The block on a first page that is an object with an items list. *)
Lemma aggregateAllPages_page fuel w m0 l0 :
  m0 !! "value" = Some (VArr l0) →
  aggregateAllPages_fuel fetchNext array_to_string fuel w (VObj m0) =
    walked ← walk fetchNext array_to_string fuel w (VArr l0)
               (get (VObj m0) "@odata.nextLink") 1 [];
    Some match w_result walked with
         | None => Outcome (VObj m0) Caught 0 (w_requests walked) (w_world walked)
         | Some (how, allItems, pageCount) =>
             Outcome (VObj (merge_into m0 allItems)) how pageCount
               (w_requests walked) (w_world walked)
         end.
Proof.
  intros Hm. unfold aggregateAllPages_fuel. simpl. by rewrite Hm.
Qed.

Lemma walk_exhausted fuel w allItems nextLink pageCount requests :
  truthy nextLink = false →
  walk fetchNext array_to_string fuel w allItems nextLink pageCount requests
  = Some (Walked (Some (Exhausted, allItems, pageCount)) requests w).
Proof. intros H. destruct fuel; simpl; by rewrite H. Qed.

Lemma chain_items_app c1 c2 : chain_items (c1 ++ c2) = chain_items c1 ++ chain_items c2.
Proof. unfold chain_items. by rewrite !fmap_app, join_app. Qed.

Lemma chain_items_cons link p c : chain_items ((link, p) :: c) = page_items p ++ chain_items c.
Proof. reflexivity. Qed.

Lemma follows_app w l c1 w1 l1 c2 w2 l2 :
  follows fetchNext w l c1 w1 l1 → follows fetchNext w1 l1 c2 w2 l2 →
  follows fetchNext w l (c1 ++ c2) w2 l2.
Proof.
  induction 1 as [|???????? ? IH]; intros H2; simpl; [done|].
  econstructor; eauto.
Qed.

(** The block along a chain of object pages that ends, below the page
    limit, on a page without a link. *)
Lemma aggregateAllPages_exhausted w m0 l0 chain w' last :
  m0 !! "value" = Some (VArr l0) →
  follows fetchNext w (get (VObj m0) "@odata.nextLink") chain w' last →
  truthy last = false →
  Forall (λ lp, is_object lp.2) chain →
  (length chain < 100)%nat →
  aggregateAllPages fetchNext array_to_string w (VObj m0)
  = Some (Outcome (VObj (merge_into m0 (VArr (l0 ++ chain_items chain))))
            Exhausted (S (length chain)) chain.*1 w').
Proof.
  intros Hm Hch Hlast Hobj Hlen. unfold aggregateAllPages.
  rewrite (aggregateAllPages_page _ _ _ l0) by done.
  replace 100%nat with (length chain + (100 - length chain))%nat by lia.
  rewrite (walk_follows chain _ _ _ _ _ _ w' last) by (done || lia).
  by rewrite walk_exhausted.
Qed.

(** C4, amended: along a finite chain of pages, each with an items list,
    that ends within 100 pages, the block returns the items of all pages
    in their order, with no continuation link; a count of the first page
    that is truthy (a number other than 0, say) becomes the number of
    merged items. *)
Theorem aggregateAllPages_finite_chain (w : world) (m0 : gmap string value)
    (l0 : list value) (chain : list (value * value)) (w' : world) (last : value) :
  m0 !! "value" = Some (VArr l0) →
  follows fetchNext w (get (VObj m0) "@odata.nextLink") chain w' last →
  truthy last = false →
  Forall (λ lp, ∃ m l, lp.2 = VObj m ∧ m !! "value" = Some (VArr l)) chain →
  (length chain < 100)%nat →
  ∃ r, aggregateAllPages fetchNext array_to_string w (VObj m0)
       = Some (Outcome (VObj r) Exhausted (S (length chain)) chain.*1 w')
       ∧ r !! "value" = Some (VArr (l0 ++ chain_items chain))
       ∧ r !! "@odata.nextLink" = None
       ∧ ∀ count, m0 !! "@odata.count" = Some count → truthy count = true →
           r !! "@odata.count"
           = Some (VNum (Z.of_nat (length (l0 ++ chain_items chain)))).
Proof.
  intros Hm Hch Hlast Hpages Hlen. eexists. split.
  - apply (aggregateAllPages_exhausted w m0 l0 chain w' last); try done.
    eapply Forall_impl; [exact Hpages|]. intros lp (m & _ & -> & _). by exists m.
  - split; [apply merge_into_value|]. split; [apply merge_into_nextLink|].
    intros count Hcount Htruthy.
    by rewrite (merge_into_count _ _ count), Htruthy.
Qed.

(** C9, amended: a fetched page that parses to an object without an items
    list appends nothing, and the walk goes on from the link of that page:
    the pages after it are requested and merged (the walk ends at that page
    only if it carries no link). *)
Theorem aggregateAllPages_page_without_items (w : world) (m0 : gmap string value)
    (l0 : list value) (before : list (value * value)) (link : value)
    (m : gmap string value) (after : list (value * value)) (w' : world)
    (last : value) :
  m0 !! "value" = Some (VArr l0) →
  follows fetchNext w (get (VObj m0) "@odata.nextLink")
    (before ++ (link, VObj m) :: after) w' last →
  (∀ l, m !! "value" ≠ Some (VArr l)) →
  Forall (λ lp, is_object lp.2) (before ++ after) →
  truthy last = false →
  (length (before ++ (link, VObj m) :: after) < 100)%nat →
  ∃ r, aggregateAllPages fetchNext array_to_string w (VObj m0)
       = Some (Outcome (VObj r) Exhausted
                 (S (length (before ++ (link, VObj m) :: after)))
                 (before.*1 ++ link :: after.*1) w')
       ∧ r !! "value" = Some (VArr (l0 ++ chain_items before ++ chain_items after)).
Proof.
  intros Hm Hch Hnone Hobj Hlast Hlen.
  assert (Hall : Forall (λ lp, is_object lp.2) (before ++ (link, VObj m) :: after)).
  { apply Forall_app in Hobj as [? ?]. apply Forall_app. split; [done|].
    constructor; [by exists m | done]. }
  eexists. split.
  - rewrite (aggregateAllPages_exhausted w m0 l0 _ w' last) by done.
    by rewrite fmap_app.
  - rewrite merge_into_value, chain_items_app, chain_items_cons.
    replace (page_items (VObj m)) with (@nil value); [done|].
    unfold page_items. simpl.
    destruct (m !! "value") as [[| | | | |l|]|] eqn:Hv; try done.
    by destruct (Hnone l).
Qed.

(** C1, amended: when the request of a continuation link is rejected, or
    its reply is not JSON, the walk stops at once and the response stays
    the first page as it was received: its own items, its link and its
    count; the pages merged before the error are dropped. *)
Theorem aggregateAllPages_fetch_error (w : world) (m0 : gmap string value)
    (l0 : list value) (chain : list (value * value)) (w1 : world) (last : value)
    (r : reply) (w2 : world) :
  m0 !! "value" = Some (VArr l0) →
  follows fetchNext w (get (VObj m0) "@odata.nextLink") chain w1 last →
  Forall (λ lp, is_object lp.2) chain →
  (length chain < 100)%nat →
  truthy last = true →
  fetchNext w1 last = (r, w2) →
  r = Rejected ∨ r = NotJson →
  aggregateAllPages fetchNext array_to_string w (VObj m0)
  = Some (Outcome (VObj m0) Caught 0 (chain.*1 ++ [last]) w2).
Proof.
  intros Hm Hch Hobj Hlen Hlast Hf Hr. unfold aggregateAllPages.
  rewrite (aggregateAllPages_page _ _ _ l0) by done.
  replace 100%nat with (length chain + S (99 - length chain))%nat by lia.
  rewrite (walk_follows chain _ _ _ _ _ _ w1 last) by (done || lia).
  simpl. rewrite Hlast, Hf. by destruct Hr as [-> | ->].
Qed.

(** As long as every request is answered by a page with a link, a chain of
    any length can be followed. *)
Lemma follows_endless n w nextLink :
  (∀ w nextLink, truthy nextLink = true →
     ∃ m w', fetchNext w nextLink = (Json (VObj m), w')
             ∧ truthy (get (VObj m) "@odata.nextLink") = true) →
  truthy nextLink = true →
  ∃ chain w' last,
    follows fetchNext w nextLink chain w' last ∧ length chain = n
    ∧ Forall (λ lp, is_object lp.2) chain ∧ truthy last = true.
Proof.
  intros Hall. revert w nextLink. induction n as [|n IH]; intros w nextLink Ht.
  - exists [], w, nextLink. repeat split; [constructor | constructor | done].
  - destruct (Hall w nextLink Ht) as (m & w1 & Hf & Ht1).
    destruct (IH w1 _ Ht1) as (chain & w' & last & Hch & Hlen & Hobj & Hlast).
    exists ((nextLink, VObj m) :: chain), w', last. repeat split.
    + by econstructor.
    + simpl. by rewrite Hlen.
    + constructor; [by exists m | done].
    + done.
Qed.

(** C3, amended: on a chain in which every fetched page carries a link the
    walk stops after exactly 100 requests, at the page limit, and returns
    the items of 101 pages: the first page and the 100 fetched ones, in
    order, with no continuation link. *)
Theorem aggregateAllPages_page_limit (w : world) (m0 : gmap string value)
    (l0 : list value) :
  m0 !! "value" = Some (VArr l0) →
  truthy (get (VObj m0) "@odata.nextLink") = true →
  (∀ w nextLink, truthy nextLink = true →
     ∃ m w', fetchNext w nextLink = (Json (VObj m), w')
             ∧ truthy (get (VObj m) "@odata.nextLink") = true) →
  ∃ chain w' last r,
    follows fetchNext w (get (VObj m0) "@odata.nextLink") chain w' last
    ∧ length chain = 100%nat
    ∧ aggregateAllPages fetchNext array_to_string w (VObj m0)
      = Some (Outcome (VObj r) PageLimit 101 chain.*1 w')
    ∧ r !! "value" = Some (VArr (l0 ++ chain_items chain))
    ∧ r !! "@odata.nextLink" = None.
Proof.
  intros Hm Ht Hall.
  destruct (follows_endless 99 w _ Hall Ht)
    as (chain & w1 & last1 & Hch & Hlen & Hobj & Hlast1).
  destruct (Hall w1 last1 Hlast1) as (m & w' & Hf & Hlast).
  exists (chain ++ [(last1, VObj m)]), w', (get (VObj m) "@odata.nextLink").
  exists (merge_into m0 (VArr (l0 ++ chain_items (chain ++ [(last1, VObj m)])))).
  split; [|split; [|split; [|split]]].
  - eapply follows_app; [exact Hch|]. econstructor; [done | done | constructor].
  - rewrite length_app, Hlen. reflexivity.
  - unfold aggregateAllPages. rewrite (aggregateAllPages_page _ _ _ l0) by done.
    replace 100%nat with (length chain + 1)%nat by lia.
    rewrite (walk_follows chain _ _ _ _ _ _ w1 last1) by (done || lia).
    rewrite (walk_page _ _ _ m w') by done.
    rewrite Hlen. simpl. rewrite fmap_app, chain_items_app, chain_items_cons.
    unfold chain_items at 3. simpl. rewrite !app_nil_r, app_assoc. reflexivity.
  - apply merge_into_value.
  - apply merge_into_nextLink.
Qed.

End PageWalkerFacts.

(** C1 as stated: after an error the result holds the items of the pages
    merged so far.  Here the second page is merged, the third request is
    rejected, and the response is the first page alone, link included. *)
Lemma aggregateAllPages_error_drops_pages :
  aggregateAllPages
    (scripted [("a", Json (page [VNum 2] (Some "b"))); ("b", Rejected)])
    no_string tt (page [VNum 1] (Some "a"))
  = Some (Outcome (page [VNum 1] (Some "a")) Caught 0
            [VStr (js "a"); VStr (js "b")] tt)
  ∧ get (page [VNum 1] (Some "a")) "value" ≠ VArr [VNum 1; VNum 2].
Proof. split; [by vm_compute | discriminate]. Qed.

Lemma aggregateAllPages_fetch_error_witness :
  aggregateAllPages
    (scripted [("a", Json (page [VNum 2] (Some "b"))); ("b", Rejected)])
    no_string tt (page [VNum 1] (Some "a"))
  = Some (Outcome (page [VNum 1] (Some "a")) Caught 0
            [VStr (js "a"); VStr (js "b")] tt).
Proof.
  apply (aggregateAllPages_fetch_error
           (scripted [("a", Json (page [VNum 2] (Some "b"))); ("b", Rejected)])
           no_string tt
           (list_to_map [("value", VArr [VNum 1]); ("@odata.nextLink", VStr (js "a"))])
           [VNum 1] [(VStr (js "a"), page [VNum 2] (Some "b"))] tt (VStr (js "b"))
           Rejected tt).
  - reflexivity.
  - econstructor; [reflexivity | reflexivity | constructor].
  - repeat constructor. by eexists.
  - simpl. lia.
  - reflexivity.
  - reflexivity.
  - by left.
Defined.

(** C3 as stated: on an endless chain the result holds the items of 100
    pages.  With one item a page it holds 101: the first page is merged
    with all of the 100 pages fetched. *)
Lemma aggregateAllPages_limit_101_pages :
  ∃ o items,
    aggregateAllPages endless no_string tt (page [VNum 7] (Some "next")) = Some o
    ∧ left_by o = PageLimit
    ∧ length (requests o) = 100%nat
    ∧ get (response o) "value" = VArr items
    ∧ length items = 101%nat.
Proof.
  destruct (aggregateAllPages endless no_string tt (page [VNum 7] (Some "next")))
    as [o|] eqn:Ho; vm_compute in Ho; [|discriminate].
  injection Ho as <-. eexists _, _. repeat split.
Qed.

Lemma aggregateAllPages_page_limit_witness :
  ∃ chain r,
    length chain = 100%nat
    ∧ aggregateAllPages endless no_string tt (page [VNum 7] (Some "next"))
      = Some (Outcome (VObj r) PageLimit 101 chain.*1 tt)
    ∧ r !! "value" = Some (VArr ([VNum 7] ++ chain_items chain)).
Proof.
  destruct (aggregateAllPages_page_limit endless no_string tt
              (list_to_map [("value", VArr [VNum 7]);
                            ("@odata.nextLink", VStr (js "next"))])
              [VNum 7])
    as (chain & [] & last & r & _ & Hlen & Hrun & Hvalue & _).
  - reflexivity.
  - reflexivity.
  - intros w nextLink _. eexists _, tt. split; reflexivity.
  - exists chain, r. split; [exact Hlen | split; [exact Hrun | exact Hvalue]].
Defined.

(** C4 as stated: a count that exists on the first page is set to the
    number of merged items.  A count of 0 next to one item stays 0: line
    324 tests the count for truthiness. *)
Lemma aggregateAllPages_zero_count_kept :
  aggregateAllPages (scripted []) no_string tt
    (obj [("value", VArr [VNum 1]); ("@odata.count", VNum 0)])
  = Some (Outcome (obj [("value", VArr [VNum 1]); ("@odata.count", VNum 0)])
            Exhausted 1 [] tt).
Proof. by vm_compute. Qed.

Lemma aggregateAllPages_finite_chain_witness :
  ∃ r, aggregateAllPages
         (scripted [("a", Json (page [VNum 2; VNum 3] None))]) no_string tt
         (obj [("value", VArr [VNum 1]); ("@odata.count", VNum 9);
               ("@odata.nextLink", VStr (js "a"))])
       = Some (Outcome (VObj r) Exhausted 2 [VStr (js "a")] tt)
       ∧ r !! "value" = Some (VArr [VNum 1; VNum 2; VNum 3])
       ∧ r !! "@odata.nextLink" = None
       ∧ r !! "@odata.count" = Some (VNum 3).
Proof.
  destruct (aggregateAllPages_finite_chain
              (scripted [("a", Json (page [VNum 2; VNum 3] None))]) no_string tt
              (list_to_map [("value", VArr [VNum 1]); ("@odata.count", VNum 9);
                            ("@odata.nextLink", VStr (js "a"))])
              [VNum 1] [(VStr (js "a"), page [VNum 2; VNum 3] None)] tt VUndef)
    as (r & Hrun & Hvalue & Hlink & Hcount).
  - reflexivity.
  - econstructor; [reflexivity | reflexivity | constructor].
  - reflexivity.
  - repeat constructor. by eexists _, _.
  - simpl. lia.
  - exists r. split; [exact Hrun|]. split; [exact Hvalue|]. split; [exact Hlink|].
    exact (Hcount (VNum 9) eq_refl eq_refl).
Defined.

(** C9 as stated: at a fetched page without an items list the walk stops
    and does not follow the link of that page.  Here the second page has no
    items list but a link; the third page is requested and merged. *)
Lemma aggregateAllPages_follows_page_without_items :
  aggregateAllPages
    (scripted [("a", Json (obj [("@odata.nextLink", VStr (js "b"))]));
               ("b", Json (page [VNum 2] None))])
    no_string tt (page [VNum 1] (Some "a"))
  = Some (Outcome (page [VNum 1; VNum 2] None) Exhausted 3
            [VStr (js "a"); VStr (js "b")] tt).
Proof. by vm_compute. Qed.

Lemma aggregateAllPages_page_without_items_witness :
  ∃ r, aggregateAllPages
         (scripted [("a", Json (obj [("@odata.nextLink", VStr (js "b"))]));
                    ("b", Json (page [VNum 2] None))])
         no_string tt (page [VNum 1] (Some "a"))
       = Some (Outcome (VObj r) Exhausted 3 [VStr (js "a"); VStr (js "b")] tt)
       ∧ r !! "value" = Some (VArr [VNum 1; VNum 2]).
Proof.
  destruct (aggregateAllPages_page_without_items
              (scripted [("a", Json (obj [("@odata.nextLink", VStr (js "b"))]));
                         ("b", Json (page [VNum 2] None))])
              no_string tt
              (list_to_map [("value", VArr [VNum 1]); ("@odata.nextLink", VStr (js "a"))])
              [VNum 1] [] (VStr (js "a"))
              (list_to_map [("@odata.nextLink", VStr (js "b"))])
              [(VStr (js "b"), page [VNum 2] None)] tt VUndef)
    as (r & Hrun & Hvalue).
  - reflexivity.
  - econstructor; [reflexivity | reflexivity |].
    econstructor; [reflexivity | reflexivity | constructor].
  - intros l. discriminate.
  - repeat constructor. by eexists.
  - reflexivity.
  - simpl. lia.
  - exists r. split; [exact Hrun | exact Hvalue].
Defined.

(* ===================================================================== *)
(** ** The scenarios of the specification and of the tests *)
(* ===================================================================== *)

Example stripHtmlTags_tags :
  stripHtmlTags (js "<p>Hello <b>world</b>!</p><br/><div>Test</div>")
  = js "Hello world!" ++ [LF; LF] ++ js "Test".
Proof. by vm_compute. Qed.

Example stripHtmlTags_entities :
  stripHtmlTags (js "Hello &amp; welcome &quot;friend&quot; &lt;test&gt;")
  = js "Hello & welcome " ++ [34%N] ++ js "friend" ++ [34%N] ++ js " <test>".
Proof. by vm_compute. Qed.

Example stripHtmlTags_empty : stripHtmlTags [] = [].
Proof. reflexivity. Qed.

Example removeEmbeddedImages_data_url :
  removeEmbeddedImages
    (js "<p>Text</p><img src='data:image/png;base64,abc123'/><p>More text</p>")
  = js "<p>Text</p>[IMAGE_REMOVED]<p>More text</p>".
Proof. by vm_compute. Qed.

(** Attribute order, case and spacing do not matter, and a link with the
    same scheme is left alone. *)
Example removeInlineAttachments_cid :
  removeInlineAttachments
    (js "<p>Text</p><IMG alt='x' SRC = 'cid:image001.jpg@01D26CD8' width=3><a href='cid:x'>More</a>")
  = js "<p>Text</p>[ATTACHMENT_REMOVED]<a href='cid:x'>More</a>".
Proof. by vm_compute. Qed.

Example optimizeMailMessage_body :
  optimizeMailMessage
    (obj [("body", rich_text "html"
                     "<p>Hello <b>world</b>!</p><img src='data:image/png;base64,abc'/>")])
    DEFAULT_LLM_OPTIMIZATION
  = Some (obj [("body",
                obj [("contentType", VStr (js "text"));
                     ("content", VStr (js "Hello world!" ++ [LF] ++ js "[IMAGE_REMOVED]"))])]).
Proof. by vm_compute. Qed.

Example optimizeMailMessage_removed_fields :
  optimizeMailMessage
    (obj [("id", VStr (js "test-id")); ("conversationId", VStr (js "conv-123"));
          ("webLink", VStr (js "https://outlook.com/")); ("changeKey", VStr (js "change-123"));
          ("sender", obj [("emailAddress", obj [("name", VStr (js "A")); ("address", VStr (js "a@x"))])])])
    DEFAULT_LLM_OPTIMIZATION
  = Some (obj [("id", VStr (js "test-id"));
               ("sender", obj [("name", VStr (js "A")); ("address", VStr (js "a@x"))])]).
Proof. by vm_compute. Qed.

(** A collection of 100 bare entities comes out as its first 50. *)
Example optimizeMailCollection_limit :
  optimizeMailCollection
    (obj [("value", VArr ((λ i, obj [("id", VNum (Z.of_nat i))]) <$> seq 0 100))])
    DEFAULT_LLM_OPTIMIZATION
  = Some (obj [("value", VArr ((λ i, obj [("id", VNum (Z.of_nat i))]) <$> seq 0 50))]).
Proof. by vm_compute. Qed.

(* ===================================================================== *)
(** ** Further properties of the content normalizer *)
(* ===================================================================== *)

Lemma match_atoms_le r t k : match_atoms r t = Some k → (k ≤ length t)%nat.
Proof.
  revert t k; induction r as [|a r IH]; intros t k.
  - intros [= <-]. lia.
  - destruct a as [p|p|p].
    + destruct t as [|c t]; simpl; [done|]. destruct (p c); [|done].
      destruct (match_atoms r t) as [n|] eqn:Hm; [|done].
      intros [= <-]. apply IH in Hm. lia.
    + destruct t as [|c t]; simpl; [apply IH|].
      destruct (p c); [|apply IH].
      destruct (match_atoms r t) as [n|] eqn:Hm; [|apply IH].
      intros [= <-]. apply IH in Hm. lia.
    + revert k. induction t as [|c t IHt]; intros k; [apply IH|].
      rewrite match_many_cons. destruct (p c); [|apply IH].
      destruct (match_atoms (Many p :: r) t) as [n|]; [|apply IH].
      intros [= <-]. specialize (IHt _ eq_refl). simpl. lia.
Qed.

Lemma match_atoms_min r t k : match_atoms r t = Some k → (min_length r ≤ k)%nat.
Proof.
  revert t k; induction r as [|a r IH]; intros t k.
  - intros [= <-]. done.
  - destruct a as [p|p|p].
    + destruct t as [|c t]; simpl; [done|]. destruct (p c); [|done].
      destruct (match_atoms r t) as [n|] eqn:Hm; [|done].
      intros [= <-]. apply IH in Hm. lia.
    + destruct t as [|c t]; simpl; [apply IH|].
      destruct (p c); [|apply IH].
      destruct (match_atoms r t) as [n|] eqn:Hm; [|apply IH].
      intros [= <-]. apply IH in Hm. lia.
    + revert k. induction t as [|c t IHt]; intros k; [apply IH|].
      rewrite match_many_cons. destruct (p c); [|apply (IH (c :: t))].
      destruct (match_atoms (Many p :: r) t) as [n|]; [|apply (IH (c :: t))].
      intros [= <-]. specialize (IHt _ eq_refl). simpl in *. lia.
Qed.

(** A replacement that is no longer than the shortest match never
    lengthens the string. *)
Lemma replace_from_length r rep s k :
  (∀ t n, match_atoms (re_tail r) t = Some n → (length rep ≤ S n)%nat) →
  (length (replace_from r rep k s) ≤ length s - k)%nat.
Proof.
  intros Hrep. revert k; induction s as [|c t IH]; intros k; [simpl; lia|].
  rewrite replace_from_cons. destruct k as [|k]; [|apply IH].
  specialize (IH 0%nat) as IH0. simpl length.
  destruct (re_head r c); [|simpl; lia].
  destruct (match_atoms (re_tail r) t) as [n|] eqn:Hm; [|simpl; lia].
  rewrite length_app. specialize (IH n). apply Hrep in Hm as Hlen.
  apply match_atoms_le in Hm. lia.
Qed.

Lemma replace_all_length r rep s :
  (∀ t n, match_atoms (re_tail r) t = Some n → (length rep ≤ S n)%nat) →
  (length (replace_all r rep s) ≤ length s)%nat.
Proof.
  intros H. pose proof (replace_from_length r rep s 0 H). unfold replace_all. lia.
Qed.

(** In particular a replacement of at most one character. *)
Lemma replace_all_length_one r rep s :
  (length rep ≤ 1)%nat → (length (replace_all r rep s) ≤ length s)%nat.
Proof. intros H. apply replace_all_length. intros; lia. Qed.

Lemma trim_length s : (length (trim s) ≤ length s)%nat.
Proof.
  destruct (trim_infix s) as (a & w & Hs). rewrite Hs at 2.
  rewrite !length_app. lia.
Qed.

(** X1: [stripHtmlTags] never returns more characters than it was given. *)
Theorem stripHtmlTags_length (html : jstring) :
  (length (stripHtmlTags html) ≤ length html)%nat.
Proof.
  destruct html as [|c t]; [done|]. set (s := c :: t).
  unfold stripHtmlTags; cbv iota beta.
  unfold clean_whitespace, unescape_entities, remove_tags.
  etransitivity; [apply trim_length|].
  etransitivity.
  { apply replace_all_length. intros u n Hm. apply blank_tail_pos in Hm.
    simpl. lia. }
  repeat (etransitivity; [apply replace_all_length_one; simpl; lia|]).
  done.
Qed.

(** X2: What [stripHtmlTags] returns holds no carriage return, neither begins
    nor ends with white space, and has no three line feeds in a row: at
    most one blank line separates two lines. *)
Theorem stripHtmlTags_whitespace (html : jstring) :
  (CR ∉ stripHtmlTags html)
  ∧ trim (stripHtmlTags html) = stripHtmlTags html
  ∧ ∀ a t, stripHtmlTags html ≠ a ++ LF :: LF :: LF :: t.
Proof.
  destruct html as [|c s].
  { repeat split; [apply not_elem_of_nil | by intros [|??] ?]. }
  unfold stripHtmlTags; cbv iota beta.
  split; [apply clean_whitespace_no_cr|]. split; [apply trim_idemp|].
  intros a t Heq.
  pose proof (blank_collapsed_clean_whitespace
                (unescape_entities (remove_tags (c :: s)))) as Hb.
  destruct (match_atoms (re_tail re_blank) (LF :: t)) as [j|] eqn:Hj.
  - assert (Hk : S j = 1%nat).
    { apply (Hb a (LF :: LF :: t) (S j) Heq).
      rewrite blank_tail_cons. change (is_ws LF) with true. cbv iota.
      by rewrite Hj. }
    apply blank_tail_pos in Hj. lia.
  - rewrite blank_tail_cons in Hj. change (is_ws LF) with true in Hj.
    change (chr LF LF) with true in Hj. cbv iota in Hj.
    by destruct (match_atoms (re_tail re_blank) t).
Qed.

(** X3: Text that holds no tag (no [<] followed by a [>]) goes through both
    media passes unchanged. *)
Theorem media_passes_tagfree (html : jstring) :
  tagfree html →
  removeEmbeddedImages html = html ∧ removeInlineAttachments html = html.
Proof.
  intros Hs. unfold removeEmbeddedImages, removeInlineAttachments. split.
  - apply (replace_all_tagfree (re_img "data:")
             (lit_i "img" ++ [Many (not_chr GT)] ++ lit_i "src"
              ++ [Many is_ws; One (chr 61%N); Many is_ws; One quote]
              ++ lit_i "data:"
              ++ [Many (λ c, negb (quote c)); One quote; Many (not_chr GT)]));
      [by intros c ?%chr_true | done | done].
  - apply (replace_all_tagfree (re_img "cid:")
             (lit_i "img" ++ [Many (not_chr GT)] ++ lit_i "src"
              ++ [Many is_ws; One (chr 61%N); Many is_ws; One quote]
              ++ lit_i "cid:"
              ++ [Many (λ c, negb (quote c)); One quote; Many (not_chr GT)]));
      [by intros c ?%chr_true | done | done].
Qed.

Lemma media_passes_tagfree_witness :
  removeEmbeddedImages (js "a > b, see <https://example.com")
  = js "a > b, see <https://example.com".
Proof.
  apply media_passes_tagfree. vm_compute.
  repeat split; try discriminate. intros _. not_in_literal.
Defined.

(** X4: An embedded image is never replaced by something longer: the marker
    has 15 characters and the shortest image tag with a data URL has 16. *)
Theorem removeEmbeddedImages_length (html : jstring) :
  (length (removeEmbeddedImages html) ≤ length html)%nat.
Proof.
  unfold removeEmbeddedImages. apply replace_all_length.
  intros t n Hm. apply match_atoms_min in Hm.
  change (min_length (re_tail (re_img "data:"))) with 15%nat in Hm.
  change (length (js "[IMAGE_REMOVED]")) with 15%nat. lia.
Qed.

(* ===================================================================== *)
(** ** Further properties of the reducers *)
(* ===================================================================== *)

(** X5: The body reducer returns an object and only ever writes [content] and
    [contentType]: every other property of the body is kept. *)
Theorem optimizeMessageBody_other_properties (m : gmap string value)
    (config : OptimizationConfig) :
  ∃ r, optimizeMessageBody (VObj m) config = VObj r
       ∧ ∀ k, k ≠ "content" → k ≠ "contentType" → r !! k = m !! k.
Proof.
  destruct (m !! "content") as [v|] eqn:Hc.
  2:{ exists m. split; [|done]. unfold optimizeMessageBody. simpl. by rewrite Hc. }
  destruct v as [| | | |[|c t]| |];
    try (exists m; split; [|done]; unfold optimizeMessageBody; simpl;
         by rewrite Hc).
  rewrite (optimizeMessageBody_content m config c t) by done.
  eexists. split; [done|]. intros k ??.
  rewrite lookup_insert_ne by done.
  destruct (wants_strip _ _ _); [by rewrite lookup_insert_ne | done].
Qed.

Lemma lookup_foldl_delete_elem (fs : list string) (m : gmap string value) g :
  g ∈ fs → foldl (λ o f, delete f o) m fs !! g = None.
Proof.
  revert m; induction fs as [|f fs IH]; intros m; simpl.
  { by intros ?%elem_of_nil. }
  destruct (decide (g ∈ fs)) as [Hin|Hnin]; [intros _; by apply IH|].
  intros [->|?]%elem_of_cons; [|done].
  by rewrite lookup_foldl_delete, lookup_delete_eq.
Qed.

Lemma pruned_lookup_removed m config k :
  k ∈ removed_fields → pruned m config !! k = None.
Proof. apply lookup_foldl_delete_elem. Qed.

Lemma pruned_lookup_other m config k :
  k ∉ removed_fields → k ≠ "body" → pruned m config !! k = m !! k.
Proof.
  intros Hk Hb. unfold pruned. rewrite lookup_foldl_delete by done.
  destruct (truthy _); [by rewrite lookup_insert_ne | done].
Qed.

Lemma flatten_recipients_other f (o o' : gmap string value) g :
  flatten_recipients f o = Some o' → g ≠ f → o' !! g = o !! g.
Proof.
  unfold flatten_recipients. intros H Hg.
  destruct (o !! f) as [v|]; [|by injection H as <-].
  destruct v as [| | | | |l|]; try by injection H as <-.
  destruct (mapM flatten_recipient l); [|done].
  injection H as <-. by rewrite lookup_insert_ne.
Qed.

(** What the entity reducer returns on an object. *)
Lemma optimizeMailMessage_inv m config r :
  optimizeMailMessage (VObj m) config = Some r →
  ∃ o, r = VObj (flatten_party "from" (flatten_party "sender" o))
       ∧ ∀ g, g ∉ recipient_fields → o !! g = pruned m config !! g.
Proof.
  unfold optimizeMailMessage. simpl spread. cbv iota beta zeta.
  fold (pruned m config).
  destruct (flatten_recipients "toRecipients" (pruned m config))
    as [o3|] eqn:E3; [|done]. simpl.
  destruct (flatten_recipients "ccRecipients" o3) as [o4|] eqn:E4; [|done]. simpl.
  destruct (flatten_recipients "bccRecipients" o4) as [o5|] eqn:E5; [|done]. simpl.
  intros [= <-]. exists o5. split; [done|]. intros g Hg.
  unfold recipient_fields in Hg.
  apply not_elem_of_cons in Hg as [? Hg]. apply not_elem_of_cons in Hg as [? Hg].
  apply not_elem_of_cons in Hg as [? _].
  rewrite (flatten_recipients_other _ _ _ g E5) by done.
  rewrite (flatten_recipients_other _ _ _ g E4) by done.
  by rewrite (flatten_recipients_other _ _ _ g E3).
Qed.

(** X6: Whenever the entity reducer returns, none of the nine fields of the
    denylist is left in the message. *)
Theorem optimizeMailMessage_removed (m r : gmap string value)
    (config : OptimizationConfig) (k : string) :
  optimizeMailMessage (VObj m) config = Some (VObj r) →
  k ∈ removed_fields → r !! k = None.
Proof.
  intros (o & [= ->] & Ho)%optimizeMailMessage_inv Hk.
  assert (k ≠ "sender" ∧ k ≠ "from" ∧ k ∉ recipient_fields) as (? & ? & ?).
  { unfold removed_fields in Hk. unfold recipient_fields.
    repeat split; try (intros ->); field_cases Hk; try not_in_literal. }
  rewrite !flatten_party_lookup_ne, Ho by done.
  by apply pruned_lookup_removed.
Qed.

Lemma optimizeMailMessage_removed_witness :
  ∃ r, optimizeMailMessage
         (obj [("id", VNum 1); ("webLink", VStr (js "https://outlook.com/"))])
         DEFAULT_LLM_OPTIMIZATION = Some (VObj r)
       ∧ r !! "webLink" = None.
Proof.
  exists (list_to_map [("id", VNum 1)]). split; [by vm_compute|].
  apply (optimizeMailMessage_removed
           (list_to_map [("id", VNum 1); ("webLink", VStr (js "https://outlook.com/"))])
           _ DEFAULT_LLM_OPTIMIZATION).
  - by vm_compute.
  - unfold removed_fields. do 3 apply list_elem_of_further. apply list_elem_of_here.
Defined.

(** X7: Whenever the entity reducer returns, every field it does not name
    (not [body], not on the denylist, not a recipient list, not [sender] or
    [from]) is in the result exactly as it was in the message. *)
Theorem optimizeMailMessage_other_fields (m r : gmap string value)
    (config : OptimizationConfig) (k : string) :
  optimizeMailMessage (VObj m) config = Some (VObj r) →
  k ∉ removed_fields → k ∉ recipient_fields →
  k ≠ "body" → k ≠ "sender" → k ≠ "from" →
  r !! k = m !! k.
Proof.
  intros (o & [= ->] & Ho)%optimizeMailMessage_inv ?????.
  rewrite !flatten_party_lookup_ne, Ho by done.
  by apply pruned_lookup_other.
Qed.

Lemma optimizeMailMessage_other_fields_witness :
  ∃ r, optimizeMailMessage
         (obj [("id", VNum 1); ("webLink", VStr (js "https://outlook.com/"))])
         DEFAULT_LLM_OPTIMIZATION = Some (VObj r)
       ∧ r !! "id" = Some (VNum 1).
Proof.
  exists (list_to_map [("id", VNum 1)]). split; [by vm_compute|].
  rewrite (optimizeMailMessage_other_fields
             (list_to_map [("id", VNum 1); ("webLink", VStr (js "https://outlook.com/"))])
             _ DEFAULT_LLM_OPTIMIZATION "id").
  - reflexivity.
  - by vm_compute.
  - unfold removed_fields. not_in_literal.
  - unfold recipient_fields. not_in_literal.
  - discriminate.
  - discriminate.
  - discriminate.
Defined.

(** X8: [sender] and [from]: a party with a truthy [emailAddress] wrapper
    comes out as the flat pair of the wrapper's name and address; any
    other value, an already flat pair included, is left as it is (unlike
    the entries of a recipient list). *)
Theorem optimizeMailMessage_party (m r : gmap string value)
    (config : OptimizationConfig) (field : string) :
  optimizeMailMessage (VObj m) config = Some (VObj r) →
  field = "sender" ∨ field = "from" →
  r !! field =
    if truthy (opt_get (default VUndef (m !! field)) "emailAddress")
    then Some (obj [("name", get (opt_get (default VUndef (m !! field))
                                    "emailAddress") "name");
                    ("address", get (opt_get (default VUndef (m !! field))
                                       "emailAddress") "address")])
    else m !! field.
Proof.
  intros (o & [= ->] & Ho)%optimizeMailMessage_inv Hf.
  assert (Hs : o !! "sender" = m !! "sender").
  { rewrite Ho by (unfold recipient_fields; not_in_literal).
    apply pruned_lookup_other; [unfold removed_fields; not_in_literal | done]. }
  assert (Hfrom : o !! "from" = m !! "from").
  { rewrite Ho by (unfold recipient_fields; not_in_literal).
    apply pruned_lookup_other; [unfold removed_fields; not_in_literal | done]. }
  destruct Hf as [-> | ->].
  - rewrite flatten_party_lookup_ne by done. unfold flatten_party.
    rewrite Hs. destruct (truthy _); [by rewrite lookup_insert_eq | done].
  - unfold flatten_party at 1.
    rewrite flatten_party_lookup_ne, Hfrom by done.
    destruct (truthy _); [by rewrite lookup_insert_eq|].
    by rewrite flatten_party_lookup_ne.
Qed.

Lemma optimizeMailMessage_party_witness :
  ∃ r, optimizeMailMessage
         (obj [("from", obj [("name", VStr (js "A")); ("address", VStr (js "a@x"))])])
         DEFAULT_LLM_OPTIMIZATION = Some (VObj r)
       ∧ r !! "from" = Some (obj [("name", VStr (js "A")); ("address", VStr (js "a@x"))]).
Proof.
  exists (list_to_map [("from", obj [("name", VStr (js "A")); ("address", VStr (js "a@x"))])]).
  split; [by vm_compute|].
  rewrite (optimizeMailMessage_party
             (list_to_map [("from", obj [("name", VStr (js "A")); ("address", VStr (js "a@x"))])])
             _ DEFAULT_LLM_OPTIMIZATION "from").
  - reflexivity.
  - by vm_compute.
  - by right.
Defined.

(** X9: The size cap reaches the message: whenever the entity reducer returns
    on a message whose body has a string content, and the limit is not
    negative, the content of the reduced body is at most the limit plus
    the 14 characters of the suffix long. *)
Theorem optimizeMailMessage_body_bound (m r : gmap string value)
    (config : OptimizationConfig) (content : jstring) :
  0 ≤ maxHtmlContentSize config →
  get (get (VObj m) "body") "content" = VStr content →
  optimizeMailMessage (VObj m) config = Some (VObj r) →
  ∃ content', get (get (VObj r) "body") "content" = VStr content'
              ∧ js_length content' ≤ maxHtmlContentSize config + 14.
Proof.
  intros Hmax Hc (o & [= ->] & Ho)%optimizeMailMessage_inv.
  apply get_content_object in Hc as Hb. destruct Hb as (b & Hb & Hbc).
  assert (Hbody : get (VObj (flatten_party "from" (flatten_party "sender" o))) "body"
                  = optimizeMessageBody (VObj b) config).
  { simpl. rewrite !flatten_party_lookup_ne, Ho
      by (done || unfold recipient_fields; not_in_literal).
    unfold pruned. rewrite lookup_foldl_delete
      by (unfold removed_fields; not_in_literal).
    rewrite Hb. simpl. by rewrite lookup_insert_eq. }
  rewrite Hbody. destruct content as [|c t].
  - exists []. rewrite optimizeMessageBody_empty by done.
    split; [simpl; by rewrite Hbc | unfold js_length; simpl; lia].
  - eexists. rewrite (optimizeMessageBody_content b config c t) by done.
    split; [by simpl; rewrite lookup_insert_eq|].
    rewrite <- TRUNCATED_length. by apply truncate_length.
Qed.

Lemma optimizeMailMessage_body_bound_witness :
  ∃ r content',
    optimizeMailMessage (obj [("body", rich_text "html" "<p>Hello</p>")])
      DEFAULT_LLM_OPTIMIZATION = Some (VObj r)
    ∧ get (get (VObj r) "body") "content" = VStr content'
    ∧ js_length content' ≤ 2000 + 14.
Proof.
  destruct (optimizeMailMessage (obj [("body", rich_text "html" "<p>Hello</p>")])
              DEFAULT_LLM_OPTIMIZATION) as [[| | | | | |r]|] eqn:Hr;
    try (by vm_compute in Hr).
  destruct (optimizeMailMessage_body_bound
              (list_to_map [("body", rich_text "html" "<p>Hello</p>")]) r
              DEFAULT_LLM_OPTIMIZATION (js "<p>Hello</p>"))
    as (content' & H1 & H2).
  - done.
  - reflexivity.
  - exact Hr.
  - exists r, content'. split; [reflexivity | split; [exact H1 | exact H2]].
Defined.

Lemma mapM_Some_length {A B} (f : A → option B) l k :
  mapM f l = Some k → length l = length k.
Proof. intros H%mapM_Some_1. by eapply Forall2_length. Qed.

(** X10: The collection reducer only ever writes [value] and [@odata.count]:
    whenever it returns, every other property of the page is kept, the
    continuation link of a truncated page included. *)
Theorem optimizeMailCollection_other_properties (m : gmap string value)
    (config : OptimizationConfig) (r : value) :
  optimizeMailCollection (VObj m) config = Some r →
  ∃ r', r = VObj r'
        ∧ ∀ k, k ≠ "value" → k ≠ "@odata.count" → r' !! k = m !! k.
Proof.
  destruct (m !! "value") as [v|] eqn:Hv.
  2:{ unfold optimizeMailCollection. simpl. rewrite Hv. simpl.
      intros [= <-]. by exists m. }
  destruct v as [| | | | |items|];
    try (unfold optimizeMailCollection; simpl; rewrite Hv; simpl;
         intros [= <-]; by exists m).
  rewrite (optimizeMailCollection_items m items config) by done.
  destruct (mapM _ _) as [items'|]; [|done]. simpl. intros [= <-].
  eexists. split; [done|]. intros k ??.
  destruct (truthy _); by rewrite !lookup_insert_ne.
Qed.

Lemma optimizeMailCollection_other_properties_witness :
  ∃ r', optimizeMailCollection
          (obj [("value", VArr [obj [("id", VNum 1)]]);
                ("@odata.nextLink", VStr (js "https://graph/next"))])
          DEFAULT_LLM_OPTIMIZATION = Some (VObj r')
        ∧ r' !! "@odata.nextLink" = Some (VStr (js "https://graph/next")).
Proof.
  destruct (optimizeMailCollection_other_properties
              (list_to_map [("value", VArr [obj [("id", VNum 1)]]);
                            ("@odata.nextLink", VStr (js "https://graph/next"))])
              DEFAULT_LLM_OPTIMIZATION
              (obj [("value", VArr [obj [("id", VNum 1)]]);
                    ("@odata.nextLink", VStr (js "https://graph/next"))]))
    as (r' & Hr & Hk).
  - by vm_compute.
  - exists r'. split.
    + transitivity (Some (obj [("value", VArr [obj [("id", VNum 1)]]);
                               ("@odata.nextLink", VStr (js "https://graph/next"))]));
        [by vm_compute | by rewrite Hr].
    + by rewrite Hk.
Defined.

(** X11: The number of items the collection reducer returns, for every integer
    limit: the lesser of the limit and the number of items when the limit
    is not negative; under a negative limit [-k], all items but the last
    [k] (none if there are fewer). *)
Theorem optimizeMailCollection_item_count (m r : gmap string value)
    (items : list value) (config : OptimizationConfig) :
  m !! "value" = Some (VArr items) →
  optimizeMailCollection (VObj m) config = Some (VObj r) →
  ∃ items', r !! "value" = Some (VArr items')
            ∧ Z.of_nat (length items')
              = if 0 <=? maxItemsInCollection config
                then Z.of_nat (length items) `min` maxItemsInCollection config
                else 0 `max` (Z.of_nat (length items) + maxItemsInCollection config).
Proof.
  intros Hm. rewrite (optimizeMailCollection_items m items config) by done.
  destruct (mapM _ _) as [items'|] eqn:Hmap; [|done]. simpl. intros [= <-].
  exists items'. split.
  { destruct (truthy _); by rewrite ?lookup_insert_ne, lookup_insert_eq by done. }
  apply mapM_Some_length in Hmap. rewrite <- Hmap. unfold slice0.
  destruct (Z.leb_spec 0 (maxItemsInCollection config)).
  - destruct (Z.gtb_spec (Z.of_nat (length items)) (maxItemsInCollection config)).
    + destruct (Z.ltb_spec (maxItemsInCollection config) 0); [lia|].
      rewrite length_take. lia.
    + lia.
  - destruct (Z.gtb_spec (Z.of_nat (length items)) (maxItemsInCollection config));
      [|lia].
    destruct (Z.ltb_spec (maxItemsInCollection config) 0); [|lia].
    rewrite length_take. lia.
Qed.

Lemma optimizeMailCollection_item_count_witness :
  ∃ r items',
    optimizeMailCollection (obj [("value", VArr [obj [("id", VNum 1)]])])
      DEFAULT_LLM_OPTIMIZATION = Some (VObj r)
    ∧ r !! "value" = Some (VArr items')
    ∧ Z.of_nat (length items') = 1.
Proof.
  destruct (optimizeMailCollection (obj [("value", VArr [obj [("id", VNum 1)]])])
              DEFAULT_LLM_OPTIMIZATION) as [[| | | | | |r]|] eqn:Hr;
    try (by vm_compute in Hr).
  destruct (optimizeMailCollection_item_count
              (list_to_map [("value", VArr [obj [("id", VNum 1)]])]) r
              [obj [("id", VNum 1)]] DEFAULT_LLM_OPTIMIZATION)
    as (items' & H1 & H2).
  - reflexivity.
  - exact Hr.
  - exists r, items'. split; [reflexivity | split; [exact H1 | exact H2]].
Defined.

(* ===================================================================== *)
(** ** The dispatcher and the optimization of a content item *)
(* ===================================================================== *)

Lemma starts_with_app sub t : starts_with sub (sub ++ t) = true.
Proof. induction sub as [|a sub IH]; simpl; [done|]. by rewrite N.eqb_refl. Qed.

Lemma starts_with_inv sub s : starts_with sub s = true → ∃ t, s = sub ++ t.
Proof.
  revert s; induction sub as [|a sub IH]; intros s; simpl; [by exists s|].
  destruct s as [|b s]; [done|].
  intros [->%N.eqb_eq [t ->]%IH]%andb_true_iff. by exists t.
Qed.

(** [includes] is the substring test. *)
Lemma includes_str_true s sub :
  includes_str s sub = true ↔ ∃ a b, s = a ++ sub ++ b.
Proof.
  split.
  - induction s as [|c s IH]; simpl.
    + rewrite orb_false_r. intros [t ->]%starts_with_inv. by exists [], t.
    + intros [[t ->]%starts_with_inv | (a & b & ->)%IH]%orb_true_iff.
      * by exists [], t.
      * by exists (c :: a), b.
  - intros (a & b & ->). induction a as [|c a IH].
    + assert (H : ∀ s, includes_str s sub = starts_with sub s
                         || match s with [] => false | _ :: t => includes_str t sub end)
        by by intros [|??].
      rewrite H. simpl app. by rewrite starts_with_app.
    + simpl. rewrite IH. apply orb_true_r.
Qed.

(** X12: A payload goes through the dispatcher untouched, whatever it is and
    whatever the configuration, when the endpoint holds neither
    [/messages] nor [mail]. *)
Theorem optimizeResponse_other_endpoint (response : value) (endpoint : jstring)
    (config : OptimizationConfig) :
  (∀ a b, endpoint ≠ a ++ js "/messages" ++ b) →
  (∀ a b, endpoint ≠ a ++ js "mail" ++ b) →
  optimizeResponse response endpoint config = Some response.
Proof.
  intros H1 H2. unfold optimizeResponse, is_mail_endpoint.
  destruct (includes_str endpoint (js "/messages")) eqn:E1.
  { apply includes_str_true in E1 as (a & b & ?). by destruct (H1 a b). }
  destruct (includes_str endpoint (js "mail")) eqn:E2.
  { apply includes_str_true in E2 as (a & b & ?). by destruct (H2 a b). }
  by destruct (spread response).
Qed.

Lemma includes_str_false_literal s sub :
  includes_str s sub = false → ∀ a b, s ≠ a ++ sub ++ b.
Proof.
  intros H a b Hs. assert (includes_str s sub = true) by (apply includes_str_true; eauto).
  congruence.
Qed.

Lemma optimizeResponse_other_endpoint_witness :
  optimizeResponse (obj [("value", VArr [obj [("webLink", VNum 1)]])])
    (js "/me/events?$top=5") DEFAULT_LLM_OPTIMIZATION
  = Some (obj [("value", VArr [obj [("webLink", VNum 1)]])]).
Proof.
  apply optimizeResponse_other_endpoint.
  - apply includes_str_false_literal. reflexivity.
  - apply includes_str_false_literal. reflexivity.
Defined.

(** X13: The dispatcher tests the whole request path for a substring: wherever the
    path (query string included) holds [mail], a payload with an items
    list is reduced as a mail collection; and unless the tool was taken
    for a mail tool, asking for all pages does not raise the limit, so
    the merged result is cut back to [maxItemsInCollection] items. *)
Theorem optimizedResponse_off_mail_tool (a b : jstring) (m : gmap string value)
    (items items' : list value) (config : OptimizationConfig)
    (fetchAllPages : bool) :
  0 ≤ maxItemsInCollection config →
  m !! "value" = Some (VArr items) →
  mapM (λ message, optimizeMailMessage message config)
    (take (Z.to_nat (maxItemsInCollection config)) items) = Some items' →
  ∃ r, optimizedResponse fetchAllPages false (a ++ js "mail" ++ b) config (VObj m)
       = VObj r
       ∧ r !! "value" = Some (VArr items')
       ∧ Z.of_nat (length items')
         = Z.of_nat (length items) `min` maxItemsInCollection config.
Proof.
  intros Hmax Hm Hmap. unfold optimizedResponse, optimizationConfig.
  rewrite andb_false_r. unfold optimizeResponse, is_mail_endpoint. simpl spread.
  cbv iota beta.
  replace (includes_str (a ++ js "mail" ++ b) (js "mail")) with true
    by (symmetry; apply includes_str_true; eauto).
  rewrite orb_true_r. replace (get (VObj m) "value") with (VArr items)
    by (simpl; by rewrite Hm).
  cbv iota beta.
  rewrite (optimizeMailCollection_items m items config), retained_take, Hmap
    by done.
  simpl. apply mapM_Some_length in Hmap.
  assert (Z.of_nat (length items')
          = Z.of_nat (length items) `min` maxItemsInCollection config).
  { rewrite <- Hmap, length_take. lia. }
  destruct (truthy _); eexists; (split; [done|]); split; try done;
    by rewrite ?lookup_insert_ne, lookup_insert_eq by done.
Qed.

Lemma optimizedResponse_off_mail_tool_witness :
  ∃ r, optimizedResponse true false (js "/users?$filter=mail%20ne%20null")
         {| maxHtmlContentSize := 2000; stripHtmlToText := true;
            removeEmbeddedImagesOpt := true; removeInlineAttachmentsOpt := true;
            mailSelectFields := ["id"]; maxItemsInCollection := 1 |}
         (obj [("value", VArr [obj [("id", VNum 1)]; obj [("id", VNum 2)]])])
       = VObj r
       ∧ r !! "value" = Some (VArr [obj [("id", VNum 1)]]).
Proof.
  destruct (optimizedResponse_off_mail_tool
              (js "/users?$filter=") (js "%20ne%20null")
              (list_to_map [("value", VArr [obj [("id", VNum 1)]; obj [("id", VNum 2)]])])
              [obj [("id", VNum 1)]; obj [("id", VNum 2)]] [obj [("id", VNum 1)]]
              {| maxHtmlContentSize := 2000; stripHtmlToText := true;
                 removeEmbeddedImagesOpt := true; removeInlineAttachmentsOpt := true;
                 mailSelectFields := ["id"]; maxItemsInCollection := 1 |} true)
    as (r & H1 & H2 & _).
  - simpl. lia.
  - reflexivity.
  - by vm_compute.
  - exists r. split; [exact H1 | exact H2].
Defined.

Lemma optimizeMailMessage_null m config field l :
  field ∈ recipient_fields →
  m !! field = Some (VArr l) → VNull ∈ l →
  optimizeMailMessage (VObj m) config = None.
Proof.
  intros Hf Hm Hnull.
  assert (Hl : mapM flatten_recipient l = None).
  { apply mapM_None, Exists_exists. by exists VNull. }
  assert (Hp : pruned m config !! field = Some (VArr l)).
  { rewrite pruned_lookup_other; [done | |].
    - unfold removed_fields. field_cases Hf; not_in_literal.
    - intros ->. field_cases Hf. }
  unfold optimizeMailMessage. simpl spread. cbv iota beta zeta.
  fold (pruned m config).
  destruct (flatten_recipients "toRecipients" (pruned m config))
    as [o3|] eqn:E3; [|done]. simpl.
  destruct (flatten_recipients "ccRecipients" o3) as [o4|] eqn:E4; [|done]. simpl.
  destruct (flatten_recipients "bccRecipients" o4) as [o5|] eqn:E5; [|done].
  exfalso. field_cases Hf.
  - unfold flatten_recipients in E3. by rewrite Hp, Hl in E3.
  - unfold flatten_recipients in E4.
    by rewrite (flatten_recipients_other _ _ _ _ E3), Hp, Hl in E4.
  - unfold flatten_recipients in E5.
    rewrite (flatten_recipients_other _ _ _ _ E4) in E5 by done.
    by rewrite (flatten_recipients_other _ _ _ _ E3), Hp, Hl in E5.
Qed.

(** X14: One [null] among the recipients of one retained message switches the
    optimization of the whole page off: the entity reducer throws, the
    [catch] of line 397 leaves the text as it is, and the page goes out
    with every body and every field as the server sent them. *)
Theorem optimizedResponse_null_recipient (fetchAllPages isMailEndpoint : bool)
    (path : jstring) (config : OptimizationConfig) (m : gmap string value)
    (before after : list value) (message : gmap string value) (field : string)
    (l : list value) :
  m !! "value" = Some (VArr (before ++ VObj message :: after)) →
  Z.of_nat (length before) <
    maxItemsInCollection (optimizationConfig fetchAllPages isMailEndpoint config) →
  field ∈ recipient_fields →
  message !! field = Some (VArr l) → VNull ∈ l →
  optimizedResponse fetchAllPages isMailEndpoint path config (VObj m) = VObj m.
Proof.
  intros Hm Hlen Hf Hmsg Hnull. unfold optimizedResponse.
  set (config' := optimizationConfig fetchAllPages isMailEndpoint config) in *.
  unfold optimizeResponse. simpl spread. cbv iota beta.
  destruct (is_mail_endpoint path); [|done].
  replace (get (VObj m) "value") with (VArr (before ++ VObj message :: after))
    by (simpl; by rewrite Hm).
  cbv iota beta.
  rewrite (optimizeMailCollection_items m _ config'), retained_take by (done || lia).
  replace (mapM _ _) with (@None (list value)); [done|].
  symmetry. apply mapM_None, Exists_exists. exists (VObj message). split.
  - apply list_elem_of_lookup. exists (length before).
    rewrite lookup_take_lt by lia. by rewrite list_lookup_middle.
  - by apply (optimizeMailMessage_null _ _ field l).
Qed.

Lemma optimizedResponse_null_recipient_witness :
  optimizedResponse false true (js "/me/messages") DEFAULT_LLM_OPTIMIZATION
    (obj [("value", VArr [obj [("webLink", VNum 1); ("ccRecipients", VArr [VNull])]])])
  = obj [("value", VArr [obj [("webLink", VNum 1); ("ccRecipients", VArr [VNull])]])].
Proof.
  apply (optimizedResponse_null_recipient false true (js "/me/messages")
           DEFAULT_LLM_OPTIMIZATION
           (list_to_map [("value", VArr [obj [("webLink", VNum 1);
                                              ("ccRecipients", VArr [VNull])]])])
           [] []
           (list_to_map [("webLink", VNum 1); ("ccRecipients", VArr [VNull])])
           "ccRecipients" [VNull]).
  - reflexivity.
  - simpl. lia.
  - unfold recipient_fields. apply list_elem_of_further, list_elem_of_here.
  - reflexivity.
  - apply list_elem_of_here.
Defined.

(* ===================================================================== *)
(** ** Further properties of the page walk *)
(* ===================================================================== *)

Lemma assign_lookup_ne k v (o : gmap string value) k' :
  k' ≠ k → assign k v o !! k' = o !! k'.
Proof.
  intros Hk. unfold assign.
  destruct v; by rewrite ?lookup_insert_ne, ?lookup_delete_ne.
Qed.

Lemma merge_into_other_items m0 allItems k :
  k ≠ "value" → k ≠ "@odata.count" → k ≠ "@odata.nextLink" →
  merge_into m0 allItems !! k = m0 !! k.
Proof.
  intros. unfold merge_into. rewrite lookup_delete_ne by done.
  destruct (truthy _); by rewrite !assign_lookup_ne.
Qed.

Section PageWalkerBounds.

Context {world : Type}.
Variable fetchNext : world → value → reply * world.
Variable array_to_string : list value → jstring.

(** What holds of every run of the loop that starts below the page limit:
    it makes at most [101 - pageCount] requests, counts at most 101 pages
    and is left by one of its own three exits. *)
Lemma walk_bounds fuel w allItems nextLink pageCount requests walked :
  (pageCount ≤ 100)%nat →
  walk fetchNext array_to_string fuel w allItems nextLink pageCount requests
  = Some walked →
  (length (w_requests walked) + pageCount ≤ length requests + 101)%nat
  ∧ ∀ how items n, w_result walked = Some (how, items, n) →
      (n ≤ 101)%nat ∧ how ≠ Caught.
Proof.
  revert w allItems nextLink pageCount requests walked.
  induction fuel as [|fuel IH];
    intros w allItems nextLink pageCount requests walked Hpc; simpl.
  { destruct (truthy nextLink); [done|]. intros [= <-]. simpl.
    split; [lia|]. intros ??? [= <- <- <-]. split; [lia | done]. }
  destruct (truthy nextLink).
  2:{ intros [= <-]. simpl. split; [lia|].
      intros ??? [= <- <- <-]. split; [lia | done]. }
  destruct (fetchNext w nextLink) as [r w1].
  assert (Hone : (length (requests ++ [nextLink]) + pageCount
                  ≤ length requests + 101)%nat)
    by (rewrite length_app; simpl; lia).
  destruct r as [| | |next].
  1,3: by (intros [= <-]; simpl; split; [done | intros ??? [=]]).
  1: by (intros [= <-]; simpl; split; [done|]; intros ??? [= <- <- <-];
         split; [lia | done]).
  destruct (prop next "value") as [v|];
    [|intros [= <-]; simpl; split; [done | by intros ??? [=]]].
  destruct (match v with VArr l => _ | _ => _ end) as [items'|];
    [|intros [= <-]; simpl; split; [done | by intros ??? [=]]].
  destruct (Nat.ltb_spec 100 (S pageCount)).
  - intros [= <-]. simpl. split; [done|].
    intros ??? [= <- <- <-]. split; [lia | done].
  - intros Hw. apply IH in Hw as [Hreq Hres]; [|lia].
    rewrite length_app in Hreq. simpl in Hreq. split; [lia | done].
Qed.

(** X15: Whatever the server answers, and whatever the first page is, the
    block ends, after at most 100 requests and with at most 101 pages
    counted. *)
Theorem aggregateAllPages_bounded (w : world) (first : value) :
  ∃ o, aggregateAllPages fetchNext array_to_string w first = Some o
       ∧ (length (requests o) ≤ 100)%nat ∧ (pages o ≤ 101)%nat.
Proof.
  destruct (aggregateAllPages_total fetchNext array_to_string w first) as [o Ho].
  exists o. split; [done|]. revert Ho.
  unfold aggregateAllPages, aggregateAllPages_fuel.
  destruct (prop first "value") as [v|]; [|intros [= <-]; simpl; lia].
  destruct (walk _ _ _ _ _ _ _ _) as [wk|] eqn:Hw; [|done]. simpl.
  apply walk_bounds in Hw as [Hreq Hres]; [|lia]. simpl in Hreq.
  destruct (w_result wk) as [[[how items] n]|] eqn:Hr.
  - destruct (Hres _ _ _ eq_refl) as [Hn _].
    destruct first; intros [= <-]; simpl; lia.
  - intros [= <-]. simpl. lia.
Qed.

(** X16: All or nothing: on a first page that is an object, either the block
    was left through its [catch] and the response is the first page
    untouched, or the continuation link is gone from the response and
    every property of the first page other than [value], [@odata.count]
    and the link is kept. *)
Theorem aggregateAllPages_all_or_nothing (w : world) (m0 : gmap string value)
    (o : outcome) :
  aggregateAllPages fetchNext array_to_string w (VObj m0) = Some o →
  (left_by o = Caught ∧ response o = VObj m0)
  ∨ (left_by o ≠ Caught
     ∧ ∃ r, response o = VObj r
            ∧ r !! "@odata.nextLink" = None
            ∧ ∀ k, k ≠ "value" → k ≠ "@odata.count" → k ≠ "@odata.nextLink" →
                r !! k = m0 !! k).
Proof.
  unfold aggregateAllPages, aggregateAllPages_fuel. simpl prop. cbv iota beta zeta.
  destruct (walk _ _ _ _ _ _ _ _) as [wk|] eqn:Hw; [|done]. simpl.
  apply walk_bounds in Hw as [_ Hres]; [|lia].
  destruct (w_result wk) as [[[how items] n]|] eqn:Hr.
  - destruct (Hres _ _ _ eq_refl) as [_ Hhow]. intros [= <-]. right. simpl.
    split; [done|]. eexists. split; [done|].
    split; [apply merge_into_nextLink|]. intros k ???.
    by apply merge_into_other_items.
  - intros [= <-]. by left.
Qed.

(** X17: A first page that is not a JSON object (an array, a string, a number,
    [null], ...) is left as it is, and no request is made. *)
Theorem aggregateAllPages_not_object (w : world) (first : value) :
  (∀ m, first ≠ VObj m) →
  ∃ o, aggregateAllPages fetchNext array_to_string w first = Some o
       ∧ response o = first ∧ requests o = [] ∧ world_after o = w.
Proof.
  intros Hfirst. destruct first as [| | | | | |m]; try (by eexists);
    by destruct (Hfirst m).
Qed.

(** X18: A reply without content ends the walk as a normal end, not as an
    error: the pages merged so far are kept (an error drops them), the
    link is cleared, and no further request is made. *)
Theorem aggregateAllPages_empty_reply (w : world) (m0 : gmap string value)
    (l0 : list value) (chain : list (value * value)) (w1 : world) (last : value)
    (w2 : world) :
  m0 !! "value" = Some (VArr l0) →
  follows fetchNext w (get (VObj m0) "@odata.nextLink") chain w1 last →
  Forall (λ lp, is_object lp.2) chain →
  (length chain < 100)%nat →
  truthy last = true →
  fetchNext w1 last = (NoContent, w2) →
  ∃ r, aggregateAllPages fetchNext array_to_string w (VObj m0)
       = Some (Outcome (VObj r) EmptyReply (S (length chain))
                 (chain.*1 ++ [last]) w2)
       ∧ r !! "value" = Some (VArr (l0 ++ chain_items chain))
       ∧ r !! "@odata.nextLink" = None.
Proof.
  intros Hm Hch Hobj Hlen Hlast Hf. eexists. split.
  - unfold aggregateAllPages.
    rewrite (aggregateAllPages_page _ _ _ _ _ l0) by done.
    replace 100%nat with (length chain + S (99 - length chain))%nat by lia.
    rewrite (walk_follows _ _ chain _ _ _ _ _ _ w1 last) by (done || lia).
    simpl. rewrite Hlast, Hf. simpl. reflexivity.
  - split; [apply merge_into_value | apply merge_into_nextLink].
Qed.

(** X19: The two steps together: when all pages of a mail tool are asked for,
    the limit of the collection reducer is raised to 10000, so a merged
    result of at most 10000 items loses none of them: whenever the entity
    reducer returns on each, the content item holds the reduced image of
    every item of every page, in order. *)
Theorem fetchAllPages_not_truncated (w : world) (m0 : gmap string value)
    (l0 : list value) (chain : list (value * value)) (w' : world) (last : value)
    (a b : jstring) (config : OptimizationConfig) (items' : list value) :
  m0 !! "value" = Some (VArr l0) →
  follows fetchNext w (get (VObj m0) "@odata.nextLink") chain w' last →
  truthy last = false →
  Forall (λ lp, is_object lp.2) chain →
  (length chain < 100)%nat →
  Z.of_nat (length (l0 ++ chain_items chain)) ≤ 10000 →
  mapM (λ message, optimizeMailMessage message (optimizationConfig true true config))
    (l0 ++ chain_items chain) = Some items' →
  ∃ o r, aggregateAllPages fetchNext array_to_string w (VObj m0) = Some o
         ∧ optimizedResponse true true (a ++ js "/messages" ++ b) config (response o)
           = VObj r
         ∧ r !! "value" = Some (VArr items')
         ∧ length items' = length (l0 ++ chain_items chain).
Proof.
  intros Hm Hch Hlast Hobj Hlen Hall Hmap. eexists _, _. split.
  { by apply (aggregateAllPages_exhausted _ _ w m0 l0 chain w' last). }
  simpl response. unfold optimizedResponse, optimizeResponse, is_mail_endpoint.
  simpl spread. cbv iota beta.
  replace (includes_str (a ++ js "/messages" ++ b) (js "/messages")) with true
    by (symmetry; apply includes_str_true; eauto).
  rewrite orb_true_l.
  replace (get (VObj (merge_into m0 (VArr (l0 ++ chain_items chain)))) "value")
    with (VArr (l0 ++ chain_items chain))
    by (simpl; by rewrite merge_into_value).
  cbv iota beta.
  rewrite (optimizeMailCollection_items _ (l0 ++ chain_items chain))
    by apply merge_into_value.
  replace (Z.of_nat (length (l0 ++ chain_items chain))
           >? maxItemsInCollection (optimizationConfig true true config))
    with false
    by (symmetry; rewrite Z.gtb_ltb; apply Z.ltb_ge; simpl maxItemsInCollection; lia).
  rewrite Hmap. simpl. apply mapM_Some_length in Hmap.
  split; [reflexivity|]. split; [|done].
  destruct (truthy (default VUndef _));
    by rewrite ?lookup_insert_ne, lookup_insert_eq by done.
Qed.


End PageWalkerBounds.

Lemma aggregateAllPages_all_or_nothing_witness :
  ∃ o (r : gmap string value),
    aggregateAllPages (scripted []) no_string tt
      (obj [("value", VArr []); ("@odata.context", VNum 5)]) = Some o
    ∧ response o = VObj r
    ∧ r !! "@odata.nextLink" = None
    ∧ r !! "@odata.context" = Some (VNum 5).
Proof.
  destruct (aggregateAllPages (scripted []) no_string tt
              (obj [("value", VArr []); ("@odata.context", VNum 5)]))
    as [o|] eqn:Ho; [|by vm_compute in Ho].
  destruct (aggregateAllPages_all_or_nothing (scripted []) no_string tt
              (list_to_map [("value", VArr []); ("@odata.context", VNum 5)]) o Ho)
    as [[Hc _] | (_ & r & Hr & Hl & Hk)].
  - exfalso. vm_compute in Ho. injection Ho as <-. discriminate Hc.
  - exists o, r. split; [reflexivity|]. split; [exact Hr|]. split; [exact Hl|].
    by rewrite Hk.
Defined.

Lemma aggregateAllPages_not_object_witness :
  ∃ o, aggregateAllPages endless no_string tt (VArr [VNum 1]) = Some o
       ∧ response o = VArr [VNum 1] ∧ requests o = [].
Proof.
  destruct (aggregateAllPages_not_object endless no_string tt (VArr [VNum 1]))
    as (o & H1 & H2 & H3 & _).
  - discriminate.
  - exists o. split; [exact H1 | split; [exact H2 | exact H3]].
Defined.

Lemma aggregateAllPages_empty_reply_witness :
  ∃ r, aggregateAllPages
         (scripted [("a", Json (page [VNum 2] (Some "b"))); ("b", NoContent)])
         no_string tt (page [VNum 1] (Some "a"))
       = Some (Outcome (VObj r) EmptyReply 2 [VStr (js "a"); VStr (js "b")] tt)
       ∧ r !! "value" = Some (VArr [VNum 1; VNum 2]).
Proof.
  destruct (aggregateAllPages_empty_reply
              (scripted [("a", Json (page [VNum 2] (Some "b"))); ("b", NoContent)])
              no_string tt
              (list_to_map [("value", VArr [VNum 1]); ("@odata.nextLink", VStr (js "a"))])
              [VNum 1] [(VStr (js "a"), page [VNum 2] (Some "b"))] tt (VStr (js "b")) tt)
    as (r & H1 & H2 & _).
  - reflexivity.
  - econstructor; [reflexivity | reflexivity | constructor].
  - repeat constructor. by eexists.
  - simpl. lia.
  - reflexivity.
  - reflexivity.
  - exists r. split; [exact H1 | exact H2].
Defined.

Lemma fetchAllPages_not_truncated_witness :
  ∃ o r,
    aggregateAllPages (scripted [("a", Json (page [obj [("id", VNum 2)]] None))])
      no_string tt
      (obj [("value", VArr [obj [("id", VNum 1)]]); ("@odata.nextLink", VStr (js "a"))])
    = Some o
    ∧ optimizedResponse true true (js "/me/messages?$top=999")
        {| maxHtmlContentSize := 2000; stripHtmlToText := true;
           removeEmbeddedImagesOpt := true; removeInlineAttachmentsOpt := true;
           mailSelectFields := ["id"]; maxItemsInCollection := 1 |}
        (response o) = VObj r
    ∧ r !! "value" = Some (VArr [obj [("id", VNum 1)]; obj [("id", VNum 2)]]).
Proof.
  destruct (fetchAllPages_not_truncated
              (scripted [("a", Json (page [obj [("id", VNum 2)]] None))])
              no_string tt
              (list_to_map [("value", VArr [obj [("id", VNum 1)]]);
                            ("@odata.nextLink", VStr (js "a"))])
              [obj [("id", VNum 1)]]
              [(VStr (js "a"), page [obj [("id", VNum 2)]] None)] tt VUndef
              (js "/me") (js "?$top=999")
              {| maxHtmlContentSize := 2000; stripHtmlToText := true;
                 removeEmbeddedImagesOpt := true; removeInlineAttachmentsOpt := true;
                 mailSelectFields := ["id"]; maxItemsInCollection := 1 |}
              [obj [("id", VNum 1)]; obj [("id", VNum 2)]])
    as (o & r & H1 & H2 & H3 & _).
  - reflexivity.
  - econstructor; [reflexivity | reflexivity | constructor].
  - reflexivity.
  - repeat constructor. by eexists.
  - simpl. lia.
  - by vm_compute.
  - by vm_compute.
  - exists o, r. split; [exact H1 | split; [exact H2 | exact H3]].
Defined.

